(** * ts-retry-helper: backoff policies, retry options and the retry engine

    A shallow embedding of the backoff policies of [src/RetryHelper.ts] and of
    [src/RetryHelpers.ts]: the [RetryOption] classes and the class
    [RetryHelper] with its method [run].  The two earlier drafts of the engine
    in [RetryHelper.ts] (the method [RetryHelper.retry] and the free function
    [retry]) are not valid TypeScript (a [do] block without [while], unbalanced
    parentheses) and have no embedding; the third document of that file
    repeats [RetryHelpers.ts].

    Numbers.  A JavaScript [number] is modelled exactly: counters and
    timestamps (milliseconds since the epoch) are integers in [Z], delays are
    rationals in [Q] because [Math.random()] makes them fractional.  Rounding,
    [NaN] and the infinities of IEEE doubles are outside the model.

    Objects.  The option objects are mutable and are held by reference in the
    [options] array, so they live in a heap ([World.heap]) and the array holds
    locations; an object registered twice is one object.

    Environment.  The system clock and [Math.random] are oracles of the world,
    read in order.  A timer set with [setTimeout] is recorded when it is set;
    its callback runs later, outside the synchronous code modelled here. *)

From Stdlib Require Import ZArith QArith Qpower String List Lia Lqa.
From stdpp Require Import base list strings pretty.
Import ListNotations.
Local Open Scope Z_scope.

(* ================================================================== *)
(** * Part I.  RetryHelper.ts: the backoff policies                     *)
(* ================================================================== *)

(** [!x] for an optional numeric argument: [undefined] and [0] are falsy. *)
Definition falsy (x : option Q) : bool :=
  match x with
  | None => true
  | Some q => Qeq_bool q 0
  end.

(** [Math.pow] on a rational base and an integer exponent. *)
Definition Math_pow (base : Q) (exponent : Z) : Q := Qpower base exponent.

(** [interface BackoffPolicy { getDelay(): number }]; the receiver is mutable,
    so the method returns the updated object next to the number. *)
Class BackoffPolicy (P : Type) := { getDelay : P -> Q * P }.

Module LinearBackoffPolicy.

Record t := mk { numAttempts : Z; delay : Q; increment : option Q }.

(** [constructor(delay, increment?)]: [increment] is only assigned when the
    argument is falsy, and then to [delay]. *)
Definition new (delay : Q) (increment : option Q) : t :=
  {| numAttempts := 0;
     delay := delay;
     increment := if falsy increment then Some delay else None |}.

(** [this.numAttempts++; return this.numAttempts*this.delay;] *)
Definition getDelay (this : t) : Q * t :=
  let this' := {| numAttempts := numAttempts this + 1;
                  delay := delay this;
                  increment := increment this |} in
  ((inject_Z (numAttempts this') * delay this')%Q, this').

End LinearBackoffPolicy.

Module ExponentialBackoffPolicy.

Record t := mk { numAttempts : Z; delayBase : Q; exponential : Z }.

Definition new (delayBase : Q) (exponential : Z) : t :=
  {| numAttempts := 0; delayBase := delayBase; exponential := exponential |}.

(** [this.numAttempts++; return Math.pow(this.delayBase, this.exponential);] *)
Definition getDelay (this : t) : Q * t :=
  let this' := {| numAttempts := numAttempts this + 1;
                  delayBase := delayBase this;
                  exponential := exponential this |} in
  (Math_pow (delayBase this') (exponential this'), this').

End ExponentialBackoffPolicy.

#[global] Instance LinearBackoffPolicy_policy : BackoffPolicy LinearBackoffPolicy.t :=
  {| getDelay := LinearBackoffPolicy.getDelay |}.

#[global] Instance ExponentialBackoffPolicy_policy : BackoffPolicy ExponentialBackoffPolicy.t :=
  {| getDelay := ExponentialBackoffPolicy.getDelay |}.

(** The policy object after [n] calls of [getDelay]. *)
Fixpoint after_calls {P : Type} `{BackoffPolicy P} (n : nat) (p : P) : P :=
  match n with
  | O => p
  | S k => snd (getDelay (after_calls k p))
  end.

(** What call number [S k] of [getDelay] returns (calls are counted from 1). *)
Definition call_result {P : Type} `{BackoffPolicy P} (k : nat) (p : P) : Q :=
  fst (getDelay (after_calls k p)).

(** The results of the first [n] calls, in order. *)
Definition successive_delays {P : Type} `{BackoffPolicy P} (n : nat) (p : P) : list Q :=
  map (fun k => call_result k p) (seq 0 n).

(* ================================================================== *)
(** * Part II.  RetryHelpers.ts: values, errors and the world           *)
(* ================================================================== *)

(** Values the caller supplies: arguments and results of the operation, the
    errors it throws, the members of an allow list.  Objects are compared by
    reference. *)
Inductive JsVal :=
| VUndefined
| VNumber (n : Z)
| VString (s : string)
| VObject (ref : nat).

#[global] Instance JsVal_eq_dec : EqDecision JsVal.
Proof. solve_decision. Defined.

(** What a [catch] clause can receive. *)
Inductive Exn :=
| Thrown (v : JsVal)
| TypeError (message : string)
| InvalidConfiguration
| MaxAttemptsException (message code : string)
| MaxTimeoutException (message code : string)
| NonretriableException (message code : string) (cause : Exn).

(** [typeof err] *)
Definition typeof (err : Exn) : string :=
  match err with
  | Thrown VUndefined => "undefined"
  | Thrown (VNumber _) => "number"
  | Thrown (VString _) => "string"
  | _ => "object"
  end.

(** [errors.includes(err)]: an exception object made by this library or by
    the runtime is a fresh object and is in no list of the caller. *)
Definition includes (errors : list JsVal) (err : Exn) : bool :=
  match err with
  | Thrown v => bool_decide (v ∈ errors)
  | _ => false
  end.

(** How one invocation of the wrapped operation ends. *)
Inductive Completion :=
| SyncThrow (v : JsVal)
| Resolves (v : JsVal)
| Rejects (v : JsVal)
| NeverSettles.

(** [AsyncFunction]: a closure; its behaviour may depend on how often it has
    been invoked before (first argument) and on the arguments it is given. *)
Definition AsyncFunction := nat -> list JsVal -> Completion.

(** A location of the heap. *)
Abbreviation loc := nat (only parsing).

(** ** The option classes: their fields *)

Module MaxAttemptsRetryAllowed.
Record t := mk { attempts : Z; maxAttempts : Z }.
Definition new (maxAttempts : Z) : t := {| attempts := 0; maxAttempts := maxAttempts |}.
End MaxAttemptsRetryAllowed.

Module LinearBackoff.
(** The [timeout] field only keeps the handle of the last timer. *)
Record t := mk { attempts : Z; currentDelay : Q; delay : Q }.
Definition new (delay : Q) : t := {| attempts := 0; currentDelay := 0; delay := delay |}.
End LinearBackoff.

Module MaxTimeout.
Record t := mk { totalTimeoutMs : Z }.
Definition new (totalTimeoutMs : Z) : t := {| totalTimeoutMs := totalTimeoutMs |}.
End MaxTimeout.

Module DelayJitter.
Record t := mk { minJitterMs : Q; maxJitterMs : Q }.
End DelayJitter.

Module RetriableExceptions.
Record t := mk { errors : list JsVal }.
Definition new (errors : list JsVal) : t := {| errors := errors |}.
End RetriableExceptions.

(** An object implementing [RetryOption]. *)
Inductive Obj :=
| ObjMaxAttempts (o : MaxAttemptsRetryAllowed.t)
| ObjLinearBackoff (o : LinearBackoff.t)
| ObjMaxTimeout (o : MaxTimeout.t)
| ObjDelayJitter (o : DelayJitter.t)
| ObjRetriableExceptions (o : RetriableExceptions.t).

(** ** The world *)

(** What the code does to its environment, in the order it does it.  A method
    call on an option is logged by the loop of [run] that makes it. *)
Inductive Event :=
| EvOn
| EvInvoke (args : list JsVal)
| EvCheck (i : nat) (opt : loc) (numAttempts timestamp : Z) (err : Exn)
| EvDelay (i : nat) (opt : loc) (previousDelayMs : Q) (timestamp : Z) (result : Q)
| EvSetTimeout (ms : Q)
| EvSleep (ms : Q).

Record World := mkWorld {
  heap : list Obj;
  clock : nat -> Z;
  ticks : nat;
  random : nat -> Q;
  draws : nat;
  calls : nat;
  trace : list Event
}.

Definition set_heap (h : list Obj) (w : World) : World :=
  mkWorld h (clock w) (ticks w) (random w) (draws w) (calls w) (trace w).

Definition tick (w : World) : World :=
  mkWorld (heap w) (clock w) (S (ticks w)) (random w) (draws w) (calls w) (trace w).

Definition draw (w : World) : World :=
  mkWorld (heap w) (clock w) (ticks w) (random w) (S (draws w)) (calls w) (trace w).

Definition count_call (w : World) : World :=
  mkWorld (heap w) (clock w) (ticks w) (random w) (draws w) (S (calls w)) (trace w).

Definition log (e : Event) (w : World) : World :=
  mkWorld (heap w) (clock w) (ticks w) (random w) (draws w) (calls w) (trace w ++ [e]).

(** ** Computations: state, exceptions, and promises that never settle *)

Inductive Result (A : Type) :=
| Ok (a : A)
| Throw (e : Exn)
| Pending.
Arguments Ok {A} a.
Arguments Throw {A} e.
Arguments Pending {A}.

Definition M (A : Type) : Type := World -> Result A * World.

Definition ret {A : Type} (a : A) : M A := fun w => (Ok a, w).

Definition bind {A B : Type} (m : M A) (k : A -> M B) : M B :=
  fun w =>
    match m w with
    | (Ok a, w') => k a w'
    | (Throw e, w') => (Throw e, w')
    | (Pending, w') => (Pending, w')
    end.

Definition throw {A : Type} (e : Exn) : M A := fun w => (Throw e, w).

(** [try { body } catch (err) { handler }] *)
Definition try_catch {A : Type} (body : M A) (handler : Exn -> M A) : M A :=
  fun w =>
    match body w with
    | (Throw e, w') => handler e w'
    | r => r
    end.

Notation "'let*' x := m 'in' k" := (bind m (fun x => k))
  (at level 10, x name, m at level 200, k at level 200).

Definition emit (e : Event) : M unit := fun w => (Ok tt, log e w).

(** [this.field] on the object at [l]; a reference always points to an object
    in JavaScript, so [None] only arises for a location that was never
    allocated. *)
Definition load (l : loc) : M (option Obj) := fun w => (Ok (heap w !! l), w).

Definition store (l : loc) (o : Obj) : M unit :=
  fun w => (Ok tt, set_heap (<[l := o]> (heap w)) w).

Definition alloc (o : Obj) : M loc :=
  fun w => (Ok (length (heap w)), set_heap (heap w ++ [o]) w).

(** [new Date().getTime()] *)
Definition new_Date : M Z := fun w => (Ok (clock w (ticks w)), tick w).

(** [Math.random()] *)
Definition Math_random : M Q := fun w => (Ok (random w (draws w)), draw w).

(** [setTimeout(callback, ms)] *)
Definition setTimeout (ms : Q) : M unit := emit (EvSetTimeout ms).

(** [const sleep = (ms) => new Promise((resolve) => setTimeout(resolve, ms))] *)
Definition sleep (ms : Q) : M unit :=
  let* _ := emit (EvSleep ms) in setTimeout ms.

(** [eventEmitter.on(TIMEOUT, onErr)]; [TIMEOUT] is an ambient constant. *)
Definition eventEmitter_on : M unit := emit EvOn.

(** Modelled from the spec: [assert], which [RetryHelpers.ts] calls and neither
    defines nor imports.  A constructor whose requirement does not hold
    "fails with an InvalidConfiguration error"; otherwise nothing happens. *)
Definition assert (value : bool) : M unit :=
  if value then ret tt else throw InvalidConfiguration.

(* ================================================================== *)
(** * Part III.  RetryHelpers.ts: the option classes and the engine     *)
(* ================================================================== *)

(** [this.attempts++; if (this.attempts >= this.maxAttempts) throw ...] *)
Definition MaxAttemptsRetryAllowed_checkRetryAllowed
    (this : loc) (o : MaxAttemptsRetryAllowed.t)
    (numAttempts timestamp : Z) (err : Exn) : M unit :=
  let attempts' := MaxAttemptsRetryAllowed.attempts o + 1 in
  let maxAttempts := MaxAttemptsRetryAllowed.maxAttempts o in
  let* _ := store this (ObjMaxAttempts (MaxAttemptsRetryAllowed.mk attempts' maxAttempts)) in
  if attempts' >=? maxAttempts
  then throw (MaxAttemptsException ("Max attempts exceeded: " +:+ pretty attempts') "429")
  else ret tt.

(** [this.currentDelay += this.delay;
     const delay = previousDelayMs + this.currentDelay;
     setTimeout(..., delay);
     return this.currentDelay;] *)
Definition LinearBackoff_retryDelayMs
    (this : loc) (o : LinearBackoff.t)
    (previousDelayMs : Q) (timestamp : Z) : M Q :=
  let currentDelay' := (LinearBackoff.currentDelay o + LinearBackoff.delay o)%Q in
  let* _ := store this (ObjLinearBackoff
              (LinearBackoff.mk (LinearBackoff.attempts o) currentDelay' (LinearBackoff.delay o))) in
  let delay := (previousDelayMs + currentDelay')%Q in
  let* _ := setTimeout delay in
  ret currentDelay'.

(** [private throwTimeout(): never] *)
Definition MaxTimeout_throwTimeout {A : Type} (o : MaxTimeout.t) : M A :=
  throw (MaxTimeoutException
           ("Attempt took longer than maximum specified "
              +:+ pretty (MaxTimeout.totalTimeoutMs o) +:+ " milliseconds")
           "408").

(** [if (timestamp.getTime() >= this.totalTimeoutMs) this.throwTimeout();
     setTimeout(..., this.totalTimeoutMs - timestamp.getTime());] *)
Definition MaxTimeout_checkRetryAllowed
    (this : loc) (o : MaxTimeout.t)
    (numAttempts timestamp : Z) (err : Exn) : M unit :=
  let* _ := (if timestamp >=? MaxTimeout.totalTimeoutMs o
             then MaxTimeout_throwTimeout o
             else ret tt) in
  setTimeout (inject_Z (MaxTimeout.totalTimeoutMs o - timestamp)).

(** [constructor(minJitterMs = 100, maxJitterMs = 250)
       { assert(maxJitterMs > minJitterMs); }] *)
Definition DelayJitter_new (minJitterMs maxJitterMs : option Q) : M loc :=
  let minJitterMs := default 100%Q minJitterMs in
  let maxJitterMs := default 250%Q maxJitterMs in
  let* _ := assert (negb (Qle_bool maxJitterMs minJitterMs)) in
  alloc (ObjDelayJitter (DelayJitter.mk minJitterMs maxJitterMs)).

(** [return Math.random()*(this.maxJitterMs-this.minJitterMs) + previousDelayMs;] *)
Definition DelayJitter_retryDelayMs
    (this : loc) (o : DelayJitter.t)
    (previousDelayMs : Q) (timestamp : Z) : M Q :=
  let* r := Math_random in
  ret (r * (DelayJitter.maxJitterMs o - DelayJitter.minJitterMs o) + previousDelayMs)%Q.

(** [if (this.errors.includes(err)) return; else throw new NonretriableException(...)] *)
Definition RetriableExceptions_checkRetryAllowed
    (this : loc) (o : RetriableExceptions.t)
    (numAttempts timestamp : Z) (err : Exn) : M unit :=
  if includes (RetriableExceptions.errors o) err
  then ret tt
  else throw (NonretriableException
                ("Attempt threw nonretriable exception: " +:+ typeof err) "500" err).

(** [interface RetryOption]: both methods are optional; each class of this
    file implements one of them. *)
Definition checkRetryAllowed (o : Obj) : option (loc -> Z -> Z -> Exn -> M unit) :=
  match o with
  | ObjMaxAttempts o => Some (fun this => MaxAttemptsRetryAllowed_checkRetryAllowed this o)
  | ObjMaxTimeout o => Some (fun this => MaxTimeout_checkRetryAllowed this o)
  | ObjRetriableExceptions o => Some (fun this => RetriableExceptions_checkRetryAllowed this o)
  | ObjLinearBackoff _ | ObjDelayJitter _ => None
  end.

Definition retryDelayMs (o : Obj) : option (loc -> Q -> Z -> M Q) :=
  match o with
  | ObjLinearBackoff o => Some (fun this => LinearBackoff_retryDelayMs this o)
  | ObjDelayJitter o => Some (fun this => DelayJitter_retryDelayMs this o)
  | ObjMaxAttempts _ | ObjMaxTimeout _ | ObjRetriableExceptions _ => None
  end.

(** [if (opt.checkRetryAllowed) opt.checkRetryAllowed(numAttempts, currentTimestamp, err);] *)
Definition call_checkRetryAllowed
    (i : nat) (opt : loc) (numAttempts currentTimestamp : Z) (err : Exn) : M unit :=
  let* o := load opt in
  match o ≫= checkRetryAllowed with
  | Some method =>
      let* _ := emit (EvCheck i opt numAttempts currentTimestamp err) in
      method opt numAttempts currentTimestamp err
  | None => ret tt
  end.

(** [if (opt.retryDelayMs) delayMs = opt.retryDelayMs(delayMs, currentTimestamp);] *)
Definition call_retryDelayMs
    (i : nat) (opt : loc) (delayMs : Q) (currentTimestamp : Z) : M Q :=
  let* o := load opt in
  match o ≫= retryDelayMs with
  | Some method =>
      let* result := method opt delayMs currentTimestamp in
      let* _ := emit (EvDelay i opt delayMs currentTimestamp result) in
      ret result
  | None => ret delayMs
  end.

(** [for (var opt of this.options) { ... }] from position [i] on; the value
    is the [delayMs] the loop ends with. *)
Fixpoint for_options (i : nat) (options : list loc)
    (numAttempts currentTimestamp : Z) (err : Exn) (delayMs : Q) : M Q :=
  match options with
  | [] => ret delayMs
  | opt :: rest =>
      let* _ := call_checkRetryAllowed i opt numAttempts currentTimestamp err in
      let* delayMs := call_retryDelayMs i opt delayMs currentTimestamp in
      for_options (S i) rest numAttempts currentTimestamp err delayMs
  end.

(** [class RetryHelper<T>]; [timeout] and [timeoutErr] are only written by
    the listener [onErr], which no synchronous code calls. *)
Record RetryHelper := mkRetryHelper {
  startTimestamp : Z;
  f : AsyncFunction;
  args : option (list JsVal);
  options : list loc
}.

(** [readonly startTimestamp = new Date();
     constructor(readonly f, readonly args?, readonly options = [])] *)
Definition RetryHelper_new
    (f : AsyncFunction) (args : option (list JsVal)) (options : option (list loc))
    : M RetryHelper :=
  let* startTimestamp := new_Date in
  ret (mkRetryHelper startTimestamp f args (default [] options)).

(** [add(opt) { this.options.push(opt); }] *)
Definition add (this : RetryHelper) (opt : loc) : RetryHelper :=
  mkRetryHelper (startTimestamp this) (f this) (args this) (options this ++ [opt]).

(** [await this.f(...this.args)]: spreading [undefined] throws before [f] is
    called; [await] turns a rejection into a throw. *)
Definition await_f (this : RetryHelper) : M JsVal :=
  match args this with
  | None => throw (TypeError "this.args is not iterable")
  | Some a =>
      fun w =>
        let w' := log (EvInvoke a) (count_call w) in
        match f this (calls w) a with
        | Resolves v => (Ok v, w')
        | Rejects v => (Throw (Thrown v), w')
        | SyncThrow v => (Throw (Thrown v), w')
        | NeverSettles => (Pending, w')
        end
  end.

(** The [catch (err)] block of [run]; its value is the final [delayMs]. *)
Definition run_catch (this : RetryHelper) (numAttempts : Z) (delayMs : Q) (err : Exn) : M Q :=
  let* currentTimestamp := new_Date in
  for_options 0 (options this) numAttempts currentTimestamp err delayMs.

(** [async run()]: the result is what the promise settles with.  The body has
    no [return], so a run that completes resolves to [undefined].  The
    increment [numAttempts++] opens the [try] block and cannot throw, so the
    [catch] block sees the incremented count. *)
Definition run (this : RetryHelper) : M JsVal :=
  let numAttempts := 0 in
  let delayMs := 0%Q in
  let* _ := eventEmitter_on in
  let numAttempts := numAttempts + 1 in
  let* _ := try_catch
              (let* result := await_f this in ret tt)
              (fun err => let* delayMs := run_catch this numAttempts delayMs err in ret tt) in
  ret VUndefined.

(* ================================================================== *)
(** * Concrete worlds, operations and programs for the examples         *)
(* ================================================================== *)

(** An empty heap, a clock that starts at [start] and advances by one
    millisecond per reading, and a [Math.random] that always returns [r]. *)
Definition world_at (start : Z) (r : Q) : World :=
  mkWorld [] (fun n => start + Z.of_nat n) 0%nat (fun _ => r) 0%nat 0%nat [].

(** [async () => { throw err }] *)
Definition always_rejects (err : JsVal) : AsyncFunction := fun _ _ => Rejects err.

(** [async () => v] *)
Definition always_resolves (v : JsVal) : AsyncFunction := fun _ _ => Resolves v.

(** An operation that fails on its first two invocations and then succeeds. *)
Definition fails_twice_then (v : JsVal) : AsyncFunction :=
  fun k _ => if (k <? 2)%nat then Rejects (VObject 0) else Resolves v.

(** [new RetryHelper(f, [], [new MaxAttemptsRetryAllowed(n)]).run()] *)
Definition run_with_max_attempts (f : AsyncFunction) (n : Z) : M JsVal :=
  let* m := alloc (ObjMaxAttempts (MaxAttemptsRetryAllowed.new n)) in
  let* h := RetryHelper_new f (Some []) (Some [m]) in
  run h.

(** [new RetryHelper(f, [], [new MaxAttemptsRetryAllowed(n), new LinearBackoff(delay)]).run()] *)
Definition run_with_attempts_and_backoff (f : AsyncFunction) (n : Z) (delay : Q) : M JsVal :=
  let* m := alloc (ObjMaxAttempts (MaxAttemptsRetryAllowed.new n)) in
  let* l := alloc (ObjLinearBackoff (LinearBackoff.new delay)) in
  let* h := RetryHelper_new f (Some []) (Some [m; l]) in
  run h.

(* ================================================================== *)
(** * Reading traces                                                    *)
(* ================================================================== *)

Definition is_invoke (e : Event) : bool :=
  match e with EvInvoke _ => true | _ => false end.

Definition is_sleep (e : Event) : bool :=
  match e with EvSleep _ => true | _ => false end.

(** How many events of a trace satisfy [p]. *)
Fixpoint count_events (p : Event -> bool) (t : list Event) : nat :=
  match t with
  | [] => 0%nat
  | e :: t' => ((if p e then 1 else 0) + count_events p t')%nat
  end.

(** The events of one round of the option loop over the positions
    [lo <= i < hi]: method calls on those positions and the timers they set. *)
Definition round_event (lo hi : nat) (e : Event) : Prop :=
  match e with
  | EvCheck i _ _ _ _ => (lo <= i < hi)%nat
  | EvDelay i _ _ _ _ => (lo <= i < hi)%nat
  | EvSetTimeout _ => True
  | EvOn | EvInvoke _ | EvSleep _ => False
  end.

(** The calls of [retryDelayMs] in a trace: position, argument
    [previousDelayMs] and returned value. *)
Fixpoint delay_calls (t : list Event) : list (nat * Q * Q) :=
  match t with
  | [] => []
  | EvDelay i _ previousDelayMs _ result :: t' => (i, previousDelayMs, result) :: delay_calls t'
  | _ :: t' => delay_calls t'
  end.

(** A chain of calls that starts from [d0] and ends with [d]: every call
    receives what the call before it returned, and positions increase. *)
Fixpoint chained (lo : nat) (d0 : Q) (cs : list (nat * Q * Q)) (d : Q) : Prop :=
  match cs with
  | [] => d = d0
  | (i, previousDelayMs, result) :: cs' =>
      (lo <= i)%nat /\ previousDelayMs = d0 /\ chained (S i) result cs' d
  end.

(** Whether an object has the method [retryDelayMs]. *)
Definition implements_retryDelayMs (o : Obj) : bool :=
  match retryDelayMs o with Some _ => true | None => false end.

(** The positions, from [i] on, of the entries of [options] whose object in
    the heap [h] has the method [retryDelayMs]. *)
Fixpoint delay_positions (h : list Obj) (i : nat) (options : list loc) : list nat :=
  match options with
  | [] => []
  | opt :: rest =>
      match implements_retryDelayMs <$> (h !! opt) with
      | Some true => i :: delay_positions h (S i) rest
      | _ => delay_positions h (S i) rest
      end
  end.

(** A heap holding [new MaxAttemptsRetryAllowed(1)] at 0,
    [new LinearBackoff(10)] at 1 and [new DelayJitter()] at 2. *)
Definition example_heap : list Obj :=
  [ObjMaxAttempts (MaxAttemptsRetryAllowed.new 1);
   ObjLinearBackoff (LinearBackoff.new 10);
   ObjDelayJitter (DelayJitter.mk 100 250)].

(** The clock reads 1000 and [Math.random()] returns 1/2. *)
Definition example_world : World := set_heap example_heap (world_at 1000 (1 # 2)).

(** A helper built at time 999 around [f], called without arguments. *)
Definition example_helper (f : AsyncFunction) (options : list loc) : RetryHelper :=
  mkRetryHelper 999 f (Some []) options.

(** A heap where one [new MaxAttemptsRetryAllowed(2)] is the only object. *)
Definition shared_guard_world : World :=
  set_heap [ObjMaxAttempts (MaxAttemptsRetryAllowed.new 2)] (world_at 1000 0).

(* ================================================================== *)
(** * The fold of the delay, as the specification words it              *)
(* ================================================================== *)

(** "called once per option, per failed attempt, in registration order, each
    option receiving the running total so far (the output of the previous
    option in the chain), producing a final folded delay": the delay methods
    alone, without the checks between them. *)
Fixpoint spec_contributeDelay_fold (i : nat) (options : list loc)
    (timestamp : Z) (previousDelayMs : Q) : M Q :=
  match options with
  | [] => ret previousDelayMs
  | opt :: rest =>
      let* total := call_retryDelayMs i opt previousDelayMs timestamp in
      spec_contributeDelay_fold (S i) rest timestamp total
  end.

(** What of an object a delay method can see: the object itself when it has
    the method [retryDelayMs], nothing otherwise. *)
Definition delay_view (o : Obj) : option Obj :=
  if implements_retryDelayMs o then Some o else None.

(** Two worlds that no delay method can tell apart. *)
Definition same_delay_state (w v : World) : Prop :=
  random w = random v /\ draws w = draws v
  /\ delay_view <$> heap w = delay_view <$> heap v.

(* ================================================================== *)
(** * Using the engine: repeated runs, repeated calls, what stays fixed *)
(* ================================================================== *)

(** An operation that fails on every invocation, by throwing or by
    rejecting. *)
Definition always_fails (f : AsyncFunction) : Prop :=
  forall (k : nat) (a : list JsVal),
    exists v, f k a = Rejects v \/ f k a = SyncThrow v.

(** [k] calls of [run] on one helper, each awaited before the next whatever
    its outcome; the outcomes in order. *)
Fixpoint run_repeatedly (k : nat) (this : RetryHelper) (w : World)
    : list (Result JsVal) * World :=
  match k with
  | O => ([], w)
  | S k' =>
      let '(r, w1) := run this w in
      let '(rs, w2) := run_repeatedly k' this w1 in
      (r :: rs, w2)
  end.

(** [opt.retryDelayMs(p, ts)] for each [p] of [previous] in turn, on one
    option; the returned delays in order. *)
Fixpoint retryDelayMs_calls (opt : loc) (ts : Z) (previous : list Q) : M (list Q) :=
  match previous with
  | [] => ret []
  | p :: ps =>
      let* d := call_retryDelayMs 0 opt p ts in
      let* ds := retryDelayMs_calls opt ts ps in
      ret (d :: ds)
  end.

(** The exceptions the option classes of this file construct. *)
Definition library_exception (e : Exn) : Prop :=
  match e with
  | MaxAttemptsException _ _ | MaxTimeoutException _ _ | NonretriableException _ _ _ => True
  | Thrown _ | TypeError _ | InvalidConfiguration => False
  end.

(** A logged method call was given the attempt count [numAttempts] and the
    timestamp [ts]. *)
Definition called_with (numAttempts ts : Z) (e : Event) : Prop :=
  match e with
  | EvCheck _ _ n t _ => n = numAttempts /\ t = ts
  | EvDelay _ _ _ t _ => t = ts
  | _ => True
  end.

(** What the constructor of an option fixed: the object with its counters
    ([attempts], [currentDelay]) put back to their initial values. *)
Definition configuration (o : Obj) : Obj :=
  match o with
  | ObjMaxAttempts o =>
      ObjMaxAttempts (MaxAttemptsRetryAllowed.new (MaxAttemptsRetryAllowed.maxAttempts o))
  | ObjLinearBackoff o => ObjLinearBackoff (LinearBackoff.new (LinearBackoff.delay o))
  | ObjMaxTimeout _ | ObjDelayJitter _ | ObjRetriableExceptions _ => o
  end.

(** The delay contributors of a heap cannot produce a negative delay: linear
    backoffs have accumulated and add nothing negative, jitters have their
    bounds in order. *)
Definition nonnegative_contributor (o : Obj) : Prop :=
  match o with
  | ObjLinearBackoff o =>
      (0 <= LinearBackoff.currentDelay o)%Q /\ (0 <= LinearBackoff.delay o)%Q
  | ObjDelayJitter o => (DelayJitter.minJitterMs o <= DelayJitter.maxJitterMs o)%Q
  | ObjMaxAttempts _ | ObjMaxTimeout _ | ObjRetriableExceptions _ => True
  end.

(* ================================================================== *)
(** * Part IV.  The backoff policies: what successive calls return     *)
(* ================================================================== *)

Lemma linear_after_calls (d : Q) (inc : option Q) (n : nat) :
  after_calls n (LinearBackoffPolicy.new d inc)
  = LinearBackoffPolicy.mk (Z.of_nat n) d
      (LinearBackoffPolicy.increment (LinearBackoffPolicy.new d inc)).
Proof.
  induction n as [|n IH]; [reflexivity|].
  cbn [after_calls]. rewrite IH. cbn.
  unfold LinearBackoffPolicy.getDelay; cbn. f_equal. lia.
Qed.

Lemma linear_call_result (d : Q) (inc : option Q) (n : nat) :
  call_result n (LinearBackoffPolicy.new d inc)
  = (inject_Z (Z.of_nat (S n)) * d)%Q.
Proof.
  unfold call_result. rewrite linear_after_calls. cbn.
  replace (Z.of_nat n + 1) with (Z.of_nat (S n)) by lia. reflexivity.
Qed.

Lemma exponential_after_calls (b : Q) (e : Z) (n : nat) :
  after_calls n (ExponentialBackoffPolicy.new b e)
  = ExponentialBackoffPolicy.mk (Z.of_nat n) b e.
Proof.
  induction n as [|n IH]; [reflexivity|].
  cbn [after_calls]. rewrite IH. cbn.
  unfold ExponentialBackoffPolicy.getDelay; cbn. f_equal. lia.
Qed.

(** C8.  A linear policy built with delay 100 returns 100, 200, 300 on its
    first three calls; call number n of [getDelay] on a policy built with
    [baseDelay] returns n * baseDelay; and when [baseDelay] is positive every
    call returns strictly more than the call before it. *)
Theorem linear_policy_nth_delay (baseDelay : Q) (increment : option Q) (n : nat) :
  let p := LinearBackoffPolicy.new baseDelay increment in
  successive_delays 3 (LinearBackoffPolicy.new 100 None) = [100; 200; 300]%Q
  /\ call_result n p = (inject_Z (Z.of_nat (S n)) * baseDelay)%Q
  /\ ((0 < baseDelay)%Q -> (call_result n p < call_result (S n) p)%Q).
Proof.
  intros p. split; [reflexivity|]. split; [apply linear_call_result|].
  intros Hpos. subst p. rewrite !linear_call_result.
  apply Qmult_lt_compat_r; [exact Hpos|].
  rewrite <- Zlt_Qlt. lia.
Qed.

Lemma linear_policy_nth_delay_witness :
  (0 < 100)%Q
  /\ (call_result 4 (LinearBackoffPolicy.new 100 None)
      < call_result 5 (LinearBackoffPolicy.new 100 None))%Q.
Proof.
  split; [reflexivity|].
  apply (linear_policy_nth_delay 100 None 4). reflexivity.
Defined.

(** C9.  An exponential policy built with base 2 and exponent 5 returns 32 on
    every call; in general every call of [getDelay] returns
    [Math.pow(delayBase, exponential)], whatever the number of the call. *)
Theorem exponential_policy_constant_delay :
  (forall n : nat, call_result n (ExponentialBackoffPolicy.new 2 5) = 32%Q)
  /\ (forall (delayBase : Q) (exponential : Z) (n : nat),
        call_result n (ExponentialBackoffPolicy.new delayBase exponential)
        = Math_pow delayBase exponential).
Proof.
  assert (G : forall (b : Q) (e : Z) (n : nat),
             call_result n (ExponentialBackoffPolicy.new b e) = Math_pow b e).
  { intros b e n. unfold call_result. rewrite exponential_after_calls. reflexivity. }
  split; [intros n; rewrite G; reflexivity | exact G].
Qed.


(* ================================================================== *)
(** * Part V.  The option classes                                      *)
(* ================================================================== *)

Lemma Qle_bool_false_lt (a b : Q) : Qle_bool a b = false <-> (b < a)%Q.
Proof.
  split; intros H.
  - apply Qnot_le_lt. intros Hle. apply Qle_bool_iff in Hle. congruence.
  - destruct (Qle_bool a b) eqn:E; [|reflexivity].
    apply Qle_bool_iff in E. exfalso. exact (Qlt_not_le _ _ H E).
Qed.

(** C7.  Constructing a jitter option whose [maxJitterMs] is not above its
    [minJitterMs] (after the defaults 100 and 250 are filled in) throws the
    configuration error at construction and leaves the world as it was: no
    object is created and nothing has run.  When [maxJitterMs] is above
    [minJitterMs] the constructor returns a new object holding the two
    bounds. *)
Theorem DelayJitter_new_asserts_bounds
    (minJitterMs maxJitterMs : option Q) (w : World) :
  let lo := default 100%Q minJitterMs in
  let hi := default 250%Q maxJitterMs in
  ((hi <= lo)%Q ->
     DelayJitter_new minJitterMs maxJitterMs w = (Throw InvalidConfiguration, w))
  /\ ((lo < hi)%Q ->
     DelayJitter_new minJitterMs maxJitterMs w
     = (Ok (length (heap w)),
        set_heap (heap w ++ [ObjDelayJitter (DelayJitter.mk lo hi)]) w)).
Proof.
  intros lo hi. unfold DelayJitter_new, bind, assert. fold lo hi. split; intros H.
  - apply Qle_bool_iff in H. rewrite H. reflexivity.
  - apply Qle_bool_false_lt in H. rewrite H. reflexivity.
Qed.

Lemma DelayJitter_new_asserts_bounds_witness :
  ((5 <= 5)%Q
   /\ DelayJitter_new (Some 5%Q) (Some 5%Q) (world_at 0 0)
      = (Throw InvalidConfiguration, world_at 0 0))
  /\ ((100 < 250)%Q
      /\ fst (DelayJitter_new None None (world_at 0 0)) = Ok 0%nat).
Proof.
  split; split.
  - unfold Qle; simpl; lia.
  - apply (proj1 (DelayJitter_new_asserts_bounds (Some 5%Q) (Some 5%Q) (world_at 0 0))).
    unfold Qle; simpl; lia.
  - reflexivity.
  - rewrite (proj2 (DelayJitter_new_asserts_bounds None None (world_at 0 0))); reflexivity.
Defined.

(** What the jitter option computes: the previous delay plus a share [r] of
    the width [maxJitterMs - minJitterMs]; the offset lies in
    [[0, maxJitterMs - minJitterMs)], not in [[minJitterMs, maxJitterMs)]. *)
Lemma DelayJitter_retryDelayMs_range
    (this : loc) (o : DelayJitter.t) (previousDelayMs : Q) (timestamp : Z) (w : World) :
  let r := random w (draws w) in
  let width := (DelayJitter.maxJitterMs o - DelayJitter.minJitterMs o)%Q in
  (0 <= r)%Q -> (r < 1)%Q -> (0 < width)%Q ->
  exists result,
    DelayJitter_retryDelayMs this o previousDelayMs timestamp w = (Ok result, draw w)
    /\ (previousDelayMs <= result)%Q /\ (result < previousDelayMs + width)%Q.
Proof.
  intros r width H0 H1 Hw. eexists. split; [reflexivity|].
  fold r width. split; nra.
Qed.

(** C6 (the code departs from the claim).  With the bounds 100 and 250, a
    previous delay of 0 and [Math.random()] returning 0, the jitter option
    returns 0, which is below [previousDelay + 100]. *)
Theorem DelayJitter_offset_below_minJitterMs :
  DelayJitter_retryDelayMs 0%nat (DelayJitter.mk 100 250) 0 1000 (world_at 1000 0)
  = (Ok 0%Q, draw (world_at 1000 0))
  /\ ~ (0 + 100 <= 0)%Q.
Proof. split; [reflexivity | unfold Qle; simpl; lia]. Qed.

(** The linear backoff returns its own accumulated delay; the delay it
    receives only enters the timer it sets. *)
Lemma LinearBackoff_retryDelayMs_result
    (this : loc) (o : LinearBackoff.t) (previousDelayMs : Q) (timestamp : Z) (w : World) :
  fst (LinearBackoff_retryDelayMs this o previousDelayMs timestamp w)
  = Ok (LinearBackoff.currentDelay o + LinearBackoff.delay o)%Q.
Proof. reflexivity. Qed.

Lemma MaxTimeout_checkRetryAllowed_spec
    (this : loc) (o : MaxTimeout.t) (numAttempts timestamp : Z) (err : Exn) (w : World) :
  MaxTimeout_checkRetryAllowed this o numAttempts timestamp err w
  = if timestamp >=? MaxTimeout.totalTimeoutMs o
    then MaxTimeout_throwTimeout o w
    else (Ok tt, log (EvSetTimeout (inject_Z (MaxTimeout.totalTimeoutMs o - timestamp))) w).
Proof.
  unfold MaxTimeout_checkRetryAllowed, bind.
  destruct (timestamp >=? MaxTimeout.totalTimeoutMs o); reflexivity.
Qed.

(** C2 (the code departs from the claim).  A helper is built when the clock
    reads 1700000000000 and its only option is [MaxTimeout(5000)]; the
    operation fails and the [catch] block reads the clock one millisecond
    later.  The elapsed time, 1, is below 5000, and [run] is rejected with the
    timeout exception: the check compares the timestamp itself with
    [totalTimeoutMs]. *)
Theorem MaxTimeout_ignores_startTimestamp :
  let w0 := set_heap [ObjMaxTimeout (MaxTimeout.new 5000)] (world_at 1700000000000 0) in
  exists (h : RetryHelper) (w1 : World),
    RetryHelper_new (always_rejects (VObject 0)) (Some []) (Some [0%nat]) w0 = (Ok h, w1)
    /\ startTimestamp h = 1700000000000
    /\ clock w1 (ticks w1) = 1700000000001
    /\ clock w1 (ticks w1) - startTimestamp h < 5000
    /\ fst (run h w1)
       = Throw (MaxTimeoutException
                  "Attempt took longer than maximum specified 5000 milliseconds" "408").
Proof.
  intros w0. eexists. eexists. split; [reflexivity|].
  repeat split; vm_compute; reflexivity.
Qed.

(* ================================================================== *)
(** * Part VI.  The engine: one round of the option loop               *)
(* ================================================================== *)

Ltac unfold_monad :=
  unfold call_checkRetryAllowed, call_retryDelayMs,
    MaxAttemptsRetryAllowed_checkRetryAllowed, MaxTimeout_checkRetryAllowed,
    RetriableExceptions_checkRetryAllowed, LinearBackoff_retryDelayMs,
    DelayJitter_retryDelayMs, MaxTimeout_throwTimeout,
    setTimeout, Math_random, new_Date, eventEmitter_on,
    bind, ret, throw, emit, load, store in *.

(** A call of [checkRetryAllowed] at position [i] either finds no such method
    and does nothing, or is logged and then returns, possibly after setting a
    timer, or throws right after the log entry.  It never invokes the
    operation and never reads the clock or [Math.random]. *)
Lemma call_checkRetryAllowed_cases
    (i : nat) (opt : loc) (numAttempts ts : Z) (err : Exn) (w w' : World) (r : Result unit) :
  call_checkRetryAllowed i opt numAttempts ts err w = (r, w') ->
  calls w' = calls w /\ ticks w' = ticks w /\ draws w' = draws w
  /\ clock w' = clock w /\ random w' = random w
  /\ r <> Pending
  /\ ((r = Ok tt /\ w' = w)
      \/ trace w' = trace w ++ [EvCheck i opt numAttempts ts err]
      \/ (r = Ok tt /\ exists ms,
            trace w' = trace w ++ [EvCheck i opt numAttempts ts err; EvSetTimeout ms])).
Proof.
  intros H. unfold call_checkRetryAllowed, bind, load in H.
  destruct (heap w !! opt) as [[o|o|o|o|o]|]; cbn in H; unfold_monad; cbn in H;
    repeat match type of H with
           | context [if ?c then _ else _] => destruct c
           end;
    inversion H; subst; clear H; cbn;
    repeat split; try discriminate; auto.
  - right; right. split; [reflexivity|]. eexists. rewrite <- app_assoc. reflexivity.
Qed.

(** A call of [retryDelayMs] at position [i] never throws.  Either there is no
    such method and the delay is unchanged, or the call is logged with the
    delay it received and the delay it returned. *)
Lemma call_retryDelayMs_cases
    (i : nat) (opt : loc) (delayMs : Q) (ts : Z) (w w' : World) (r : Result Q) :
  call_retryDelayMs i opt delayMs ts w = (r, w') ->
  calls w' = calls w /\ ticks w' = ticks w /\ clock w' = clock w
  /\ exists result t,
       r = Ok result /\ trace w' = trace w ++ t
       /\ ((t = [] /\ result = delayMs
            /\ implements_retryDelayMs <$> (heap w !! opt) <> Some true)
           \/ (implements_retryDelayMs <$> (heap w !! opt) = Some true
               /\ (t = [EvDelay i opt delayMs ts result]
                   \/ exists ms, t = [EvSetTimeout ms; EvDelay i opt delayMs ts result]))).
Proof.
  intros H. unfold call_retryDelayMs, bind, load in H.
  destruct (heap w !! opt) as [[o|o|o|o|o]|]; cbn in H; unfold_monad; cbn in H;
    inversion H; subst; clear H; cbn;
    repeat split; eexists; eexists; (split; [reflexivity|]).
  all: try (split; [symmetry; apply app_nil_r | left; repeat split; discriminate]).
  - split; [rewrite <- app_assoc; reflexivity|].
    right. split; [reflexivity|]. right. eexists. reflexivity.
  - split; [reflexivity|]. right. split; [reflexivity|]. left. reflexivity.
Qed.

(** A method call leaves every object in its class: which objects have the
    method [retryDelayMs] does not change. *)
Lemma call_checkRetryAllowed_classes
    (i : nat) (opt : loc) (numAttempts ts : Z) (err : Exn) (w w' : World) (r : Result unit) :
  call_checkRetryAllowed i opt numAttempts ts err w = (r, w') ->
  implements_retryDelayMs <$> heap w' = implements_retryDelayMs <$> heap w.
Proof.
  intros H. unfold call_checkRetryAllowed, bind, load in H.
  destruct (heap w !! opt) as [[o|o|o|o|o]|] eqn:E; cbn in H; unfold_monad; cbn in H;
    repeat match type of H with
           | context [if ?c then _ else _] => destruct c
           end;
    inversion H; subst; clear H; cbn; try reflexivity.
  all: rewrite list_fmap_insert; apply list_insert_id;
    rewrite list_lookup_fmap, E; reflexivity.
Qed.

Lemma call_retryDelayMs_classes
    (i : nat) (opt : loc) (delayMs : Q) (ts : Z) (w w' : World) (r : Result Q) :
  call_retryDelayMs i opt delayMs ts w = (r, w') ->
  implements_retryDelayMs <$> heap w' = implements_retryDelayMs <$> heap w.
Proof.
  intros H. unfold call_retryDelayMs, bind, load in H.
  destruct (heap w !! opt) as [[o|o|o|o|o]|] eqn:E; cbn in H; unfold_monad; cbn in H;
    inversion H; subst; clear H; cbn; try reflexivity.
  rewrite list_fmap_insert; apply list_insert_id.
  rewrite list_lookup_fmap, E; reflexivity.
Qed.

Lemma delay_positions_ext (h h' : list Obj) (i : nat) (options : list loc) :
  implements_retryDelayMs <$> h' = implements_retryDelayMs <$> h ->
  delay_positions h' i options = delay_positions h i options.
Proof.
  intros E. revert i. induction options as [|opt rest IH]; intros i; [reflexivity|].
  cbn. rewrite <- !list_lookup_fmap, E, IH. reflexivity.
Qed.

Lemma round_event_weaken (lo hi lo' hi' : nat) (e : Event) :
  (lo' <= lo)%nat -> (hi <= hi')%nat -> round_event lo hi e -> round_event lo' hi' e.
Proof. destruct e; cbn; intros; auto; lia. Qed.

(** A check changes nothing a delay method can see. *)
Lemma call_checkRetryAllowed_delay_state
    (i : nat) (opt : loc) (numAttempts ts : Z) (err : Exn) (w w' : World) (r : Result unit) :
  call_checkRetryAllowed i opt numAttempts ts err w = (r, w') ->
  same_delay_state w' w.
Proof.
  intros H. unfold call_checkRetryAllowed, bind, load in H.
  destruct (heap w !! opt) as [[o|o|o|o|o]|] eqn:E; cbn in H; unfold_monad; cbn in H;
    repeat match type of H with
           | context [if ?c then _ else _] => destruct c
           end;
    inversion H; subst; clear H; repeat split; cbn.
  all: rewrite list_fmap_insert; apply list_insert_id;
    rewrite list_lookup_fmap, E; reflexivity.
Qed.

(** A delay method does the same in two worlds it cannot tell apart. *)
Lemma call_retryDelayMs_delay_state
    (i : nat) (opt : loc) (delayMs : Q) (ts : Z) (w w' v : World) (r : Result Q) :
  same_delay_state w v ->
  call_retryDelayMs i opt delayMs ts w = (r, w') ->
  exists v', call_retryDelayMs i opt delayMs ts v = (r, v') /\ same_delay_state w' v'.
Proof.
  intros (Hr & Hd & Hh) H.
  assert (Hl : delay_view <$> (heap w !! opt) = delay_view <$> (heap v !! opt))
    by (rewrite <- !list_lookup_fmap, Hh; reflexivity).
  unfold call_retryDelayMs, bind, load in *.
  destruct (heap w !! opt) as [[o|o|o|o|o]|] eqn:Ew;
    destruct (heap v !! opt) as [[o'|o'|o'|o'|o']|] eqn:Ev;
    cbn in Hl; try discriminate Hl; cbn in H |- *; unfold_monad; cbn in H |- *;
    inversion H; subst; clear H;
    try (eexists; split; [reflexivity | repeat split; assumption]).
  - inversion Hl; subst. eexists. split; [reflexivity|].
    repeat split; cbn; try assumption. rewrite !list_fmap_insert, Hh. reflexivity.
  - inversion Hl; subst. rewrite Hr, Hd. eexists. split; [reflexivity|].
    repeat split; cbn; congruence.
Qed.

(** ** One round: the loop over the options after a failed attempt

    The round is fixed by what the [catch] block passes to every option: the
    attempt count, the timestamp read once at its start, and the error. *)

Section Round.

Variables (numAttempts ts : Z) (err : Exn).

(** The loop over the options never invokes the operation, never reads the
    clock, never leaves a promise pending, and only logs method calls on its
    own positions and the timers they set. *)
Lemma for_options_frame
    (options : list loc) (i : nat) (delayMs : Q) (w w' : World) (r : Result Q) :
  for_options i options numAttempts ts err delayMs w = (r, w') ->
  calls w' = calls w /\ ticks w' = ticks w /\ clock w' = clock w /\ r <> Pending
  /\ exists t, trace w' = trace w ++ t
               /\ Forall (round_event i (i + length options)) t.
Proof.
  revert i delayMs w. induction options as [|opt rest IH]; intros i delayMs w H.
  - inversion H; subst. repeat split; try discriminate.
    exists []. split; [symmetry; apply app_nil_r | constructor].
  - cbn [for_options] in H. unfold bind at 1 in H.
    destruct (call_checkRetryAllowed i opt numAttempts ts err w) as [rc wc] eqn:Ec.
    pose proof (call_checkRetryAllowed_cases _ _ _ _ _ _ _ _ Ec)
      as (Hc & Ht & _ & Hk & _ & Hp & Hcase).
    assert (Hcheck : exists tc, trace wc = trace w ++ tc
                                /\ Forall (round_event i (i + length (opt :: rest))) tc).
    { cbn [length]. destruct Hcase as [[_ ->]|[->|[_ [ms ->]]]].
      - exists []. split; [symmetry; apply app_nil_r | constructor].
      - eexists. split; [reflexivity|]. repeat constructor; lia.
      - eexists. split; [reflexivity|]. repeat constructor; lia. }
    destruct Hcheck as (tc & Etc & Ftc).
    destruct rc as [[]|e|].
    + unfold bind at 1 in H.
      destruct (call_retryDelayMs i opt delayMs ts wc) as [rd wd] eqn:Ed.
      pose proof (call_retryDelayMs_cases _ _ _ _ _ _ _ Ed)
        as (Hc' & Ht' & Hk' & result & td & -> & Etd & Hcase').
      apply IH in H. destruct H as (Hc'' & Ht'' & Hk'' & Hp'' & t & Et & Ft).
      repeat split; try congruence.
      exists (tc ++ td ++ t). split.
      * rewrite Et, Etd, Etc, <- !app_assoc. reflexivity.
      * cbn [length]. apply Forall_app. split; [exact Ftc|]. apply Forall_app. split.
        -- destruct Hcase' as [(-> & _)|(_ & [->|[ms ->]])];
             repeat constructor; lia.
        -- eapply Forall_impl; [exact Ft|]. intros e.
           apply round_event_weaken; lia.
    + inversion H; subst. repeat split; try congruence. exists tc. auto.
    + congruence.
Qed.

(** The loop over [pre ++ post] is the loop over [pre] followed, when that
    one completes, by the loop over [post] with the delay reached so far. *)
Lemma for_options_app
    (pre post : list loc) (i : nat) (delayMs : Q) (w : World) :
  for_options i (pre ++ post) numAttempts ts err delayMs w
  = match for_options i pre numAttempts ts err delayMs w with
    | (Ok d, w1) => for_options (i + length pre) post numAttempts ts err d w1
    | (Throw e, w1) => (Throw e, w1)
    | (Pending, w1) => (Pending, w1)
    end.
Proof.
  revert i delayMs w. induction pre as [|opt rest IH]; intros i delayMs w.
  - cbn. rewrite Nat.add_0_r. reflexivity.
  - cbn [app for_options length]. unfold bind.
    destruct (call_checkRetryAllowed i opt numAttempts ts err w) as [[[]|e|] wc];
      try reflexivity.
    destruct (call_retryDelayMs i opt delayMs ts wc) as [[d|e|] wd]; try reflexivity.
    rewrite IH. replace (S i + length rest)%nat with (i + S (length rest))%nat by lia.
    reflexivity.
Qed.

Lemma delay_calls_app (t1 t2 : list Event) :
  delay_calls (t1 ++ t2) = delay_calls t1 ++ delay_calls t2.
Proof.
  induction t1 as [|e t1 IH]; [reflexivity|].
  destruct e; cbn; rewrite ?IH; reflexivity.
Qed.

Lemma chained_weaken (lo lo' : nat) (d0 d : Q) (cs : list (nat * Q * Q)) :
  (lo' <= lo)%nat -> chained lo d0 cs d -> chained lo' d0 cs d.
Proof.
  destruct cs as [|[[i p] r] cs]; cbn; [auto|].
  intros Hle (Hlo & Hp & Hc). repeat split; auto; lia.
Qed.

(** In a round that no option vetoes, the calls of [retryDelayMs] form one
    chain from the initial delay to the final one, and they are made exactly
    at the positions whose option has the method, in increasing order. *)
Lemma for_options_chain
    (options : list loc) (i : nat) (d0 d : Q) (w w' : World) :
  for_options i options numAttempts ts err d0 w = (Ok d, w') ->
  exists t, trace w' = trace w ++ t
            /\ chained i d0 (delay_calls t) d
            /\ map (fun c => fst (fst c)) (delay_calls t)
               = delay_positions (heap w) i options.
Proof.
  revert i d0 w. induction options as [|opt rest IH]; intros i d0 w H.
  - inversion H; subst. exists []. rewrite app_nil_r. repeat split.
  - cbn [for_options] in H. unfold bind at 1 in H.
    destruct (call_checkRetryAllowed i opt numAttempts ts err w) as [rc wc] eqn:Ec.
    pose proof (call_checkRetryAllowed_classes _ _ _ _ _ _ _ _ Ec) as Kc.
    pose proof (call_checkRetryAllowed_cases _ _ _ _ _ _ _ _ Ec)
      as (_ & _ & _ & _ & _ & _ & Hcase).
    destruct rc as [[]|e|]; [|discriminate|discriminate].
    assert (Hcheck : exists tc, trace wc = trace w ++ tc /\ delay_calls tc = []).
    { destruct Hcase as [[_ ->]|[->|[_ [ms ->]]]].
      - exists []. rewrite app_nil_r. auto.
      - eexists. split; reflexivity.
      - eexists. split; reflexivity. }
    destruct Hcheck as (tc & Etc & Dtc).
    unfold bind at 1 in H.
    destruct (call_retryDelayMs i opt d0 ts wc) as [rd wd] eqn:Ed.
    pose proof (call_retryDelayMs_classes _ _ _ _ _ _ _ Ed) as Kd.
    pose proof (call_retryDelayMs_cases _ _ _ _ _ _ _ Ed)
      as (_ & _ & _ & result & td & -> & Etd & Hcase').
    apply IH in H. destruct H as (t & Et & Hch & Hpos).
    rewrite (delay_positions_ext (heap w) (heap wd)) in Hpos by congruence.
    assert (Kopt : implements_retryDelayMs <$> (heap wc !! opt)
                   = implements_retryDelayMs <$> (heap w !! opt)).
    { rewrite <- !list_lookup_fmap, Kc. reflexivity. }
    exists (tc ++ td ++ t). split.
    { rewrite Et, Etd, Etc, <- !app_assoc. reflexivity. }
    rewrite !delay_calls_app, Dtc. cbn [app delay_positions].
    rewrite <- Kopt.
    destruct Hcase' as [(-> & -> & Hno)|(Hyes & Htd)].
    + cbn [delay_calls app]. split.
      * apply chained_weaken with (lo := S i); [lia | exact Hch].
      * destruct (implements_retryDelayMs <$> (heap wc !! opt)) as [[]|];
          [congruence | exact Hpos | exact Hpos].
    + rewrite Hyes.
      assert (Dtd : delay_calls td = [(i, d0, result)])
        by (destruct Htd as [->|[ms ->]]; reflexivity).
      rewrite Dtd. cbn. repeat split; auto. f_equal. exact Hpos.
Qed.

(** The delay a round that is not vetoed ends with is the fold of the delay
    methods alone: the checks made between them do not affect it. *)
Lemma for_options_refines_fold
    (options : list loc) (i : nat) (d0 d : Q) (w w' v : World) :
  for_options i options numAttempts ts err d0 w = (Ok d, w') ->
  same_delay_state w v ->
  exists v', spec_contributeDelay_fold i options ts d0 v = (Ok d, v')
             /\ same_delay_state w' v'.
Proof.
  revert i d0 w v. induction options as [|opt rest IH]; intros i d0 w v H R.
  - inversion H; subst. exists v. split; [reflexivity | exact R].
  - cbn [for_options] in H. unfold bind at 1 in H.
    destruct (call_checkRetryAllowed i opt numAttempts ts err w) as [rc wc] eqn:Ec.
    apply call_checkRetryAllowed_delay_state in Ec.
    destruct rc as [[]|e|]; [|discriminate|discriminate].
    assert (Rc : same_delay_state wc v).
    { destruct Ec as (? & ? & ?), R as (? & ? & ?). repeat split; congruence. }
    unfold bind at 1 in H.
    destruct (call_retryDelayMs i opt d0 ts wc) as [rd wd] eqn:Ed.
    destruct (call_retryDelayMs_delay_state _ _ _ _ _ _ _ _ Rc Ed) as (vd & Ev & Rd).
    destruct rd as [result|e|]; [|discriminate|discriminate].
    destruct (IH _ _ _ _ H Rd) as (v' & Ef & R').
    exists v'. split; [|exact R'].
    cbn [spec_contributeDelay_fold]. unfold bind. rewrite Ev. exact Ef.
Qed.

End Round.

(* ================================================================== *)
(** * Part VII.  The engine: [run]                                     *)
(* ================================================================== *)

(** [run] by cases on how the single attempt ends. *)
Lemma run_unfold (this : RetryHelper) (w : World) :
  run this w
  = match await_f this (log EvOn w) with
    | (Ok _, w1) => (Ok VUndefined, w1)
    | (Throw err, w1) =>
        match run_catch this 1 0 err w1 with
        | (Ok _, w2) => (Ok VUndefined, w2)
        | (Throw e, w2) => (Throw e, w2)
        | (Pending, w2) => (Pending, w2)
        end
    | (Pending, w1) => (Pending, w1)
    end.
Proof.
  unfold run, try_catch, eventEmitter_on, emit, bind, ret.
  change (0 + 1) with 1.
  destruct (await_f this (log EvOn w)) as [[v|err|] w1]; try reflexivity.
  destruct (run_catch this 1 0 err w1) as [[d|e|] w2]; reflexivity.
Qed.

Lemma run_catch_unfold (this : RetryHelper) (numAttempts : Z) (d0 : Q) (err : Exn) (w : World) :
  run_catch this numAttempts d0 err w
  = for_options 0 (options this) numAttempts (clock w (ticks w)) err d0 (tick w).
Proof. reflexivity. Qed.

(** The attempt: either the spread of a missing [args] throws before the
    operation is called, or the operation is called exactly once. *)
Lemma await_f_cases (this : RetryHelper) (w w' : World) (r : Result JsVal) :
  await_f this w = (r, w') ->
  (args this = None /\ w' = w /\ exists m, r = Throw (TypeError m))
  \/ (exists a, args this = Some a /\ w' = log (EvInvoke a) (count_call w)).
Proof.
  unfold await_f. destruct (args this) as [a|].
  - intros H. right. exists a. split; [reflexivity|].
    destruct (f this (calls w) a); inversion H; reflexivity.
  - intros H. inversion H. left. eauto.
Qed.

Lemma count_events_app (p : Event -> bool) (t1 t2 : list Event) :
  count_events p (t1 ++ t2) = (count_events p t1 + count_events p t2)%nat.
Proof. induction t1 as [|e t1 IH]; cbn; [reflexivity | rewrite IH; lia]. Qed.

Lemma round_events_quiet (lo hi : nat) (t : list Event) :
  Forall (round_event lo hi) t ->
  count_events is_invoke t = 0%nat /\ count_events is_sleep t = 0%nat.
Proof.
  induction 1 as [|e t He _ [IH1 IH2]]; [split; reflexivity|].
  destruct e; cbn in *; try contradiction; auto.
Qed.

(** What one call of [run] does to the world: it registers the listener,
    makes the attempt, and on failure goes through the options once. *)
Lemma run_trace (this : RetryHelper) (w : World) :
  exists t,
    trace (snd (run this w)) = trace w ++ EvOn :: t
    /\ (count_events is_invoke t <= 1)%nat
    /\ count_events is_sleep t = 0%nat
    /\ (calls (snd (run this w)) = calls w + count_events is_invoke t)%nat.
Proof.
  rewrite run_unfold.
  destruct (await_f this (log EvOn w)) as [r w1] eqn:Ea.
  assert (Hattempt : exists ta, trace w1 = trace w ++ EvOn :: ta
             /\ (count_events is_invoke ta <= 1)%nat
             /\ count_events is_sleep ta = 0%nat
             /\ (calls w1 = calls w + count_events is_invoke ta)%nat).
  { destruct (await_f_cases _ _ _ _ Ea) as [(_ & -> & _)|(a & _ & ->)].
    - exists []. cbn. repeat split; auto; lia.
    - exists [EvInvoke a]. cbn. rewrite <- app_assoc. repeat split; auto; lia. }
  destruct Hattempt as (ta & Eta & Hi & Hs & Hc).
  destruct r as [v|err|]; [exists ta; cbn; auto | | exists ta; cbn; auto].
  rewrite run_catch_unfold.
  destruct (for_options 0 (options this) 1 (clock w1 (ticks w1)) err 0 (tick w1))
    as [r2 w2] eqn:Ef.
  apply for_options_frame in Ef. destruct Ef as (Hc2 & _ & _ & _ & t & Et & Ft).
  apply round_events_quiet in Ft. destruct Ft as [Fi Fs].
  exists (ta ++ t).
  assert (trace w2 = trace w ++ EvOn :: ta ++ t).
  { rewrite Et. cbn. rewrite Eta, <- app_assoc. reflexivity. }
  assert (calls w2 = calls w + count_events is_invoke (ta ++ t))%nat.
  { rewrite Hc2, count_events_app, Fi. cbn. lia. }
  rewrite count_events_app, Fi in H0.
  rewrite !count_events_app, Fi, Fs.
  destruct r2; cbn; repeat split; auto; lia.
Qed.

(** C10.  One call of [run] invokes the operation at most once and never
    sleeps, whatever the operation, its arguments and the options; and when
    the attempt fails and the option loop completes (no check throws), [run]
    resolves with [undefined] in the very world the loop ended in: nothing
    follows the loop, neither a second attempt nor a wait. *)
Theorem run_single_attempt_no_sleep (this : RetryHelper) (w : World) :
  exists t,
    trace (snd (run this w)) = trace w ++ t
    /\ (count_events is_invoke t <= 1)%nat
    /\ count_events is_sleep t = 0%nat
    /\ (calls (snd (run this w)) <= S (calls w))%nat
    /\ (forall (err : Exn) (w1 w2 : World) (d : Q),
          await_f this (log EvOn w) = (Throw err, w1) ->
          run_catch this 1 0 err w1 = (Ok d, w2) ->
          run this w = (Ok VUndefined, w2)).
Proof.
  destruct (run_trace this w) as (t & Et & Hi & Hs & Hc).
  exists (EvOn :: t).
  split; [exact Et|]. split; [exact Hi|]. split; [exact Hs|].
  split; [rewrite Hc; lia|].
  intros err w1 w2 d Ha Hr. rewrite run_unfold, Ha, Hr. reflexivity.
Qed.

Lemma run_single_attempt_no_sleep_witness :
  let this := example_helper (always_rejects (VObject 7)) [1; 2]%nat in
  let w := example_world in
  let err := Thrown (VObject 7) in
  let w1 := snd (await_f this (log EvOn w)) in
  let w2 := snd (run_catch this 1 0 err w1) in
  await_f this (log EvOn w) = (Throw err, w1)
  /\ run_catch this 1 0 err w1 = (Ok (170 # 2)%Q, w2)
  /\ run this w = (Ok VUndefined, w2).
Proof.
  intros this w err w1 w2.
  assert (Ha : await_f this (log EvOn w) = (Throw err, w1)) by reflexivity.
  assert (Hr : run_catch this 1 0 err w1 = (Ok (170 # 2)%Q, w2)) by reflexivity.
  split; [exact Ha|]. split; [exact Hr|].
  destruct (run_single_attempt_no_sleep this w) as (t & _ & _ & _ & _ & H).
  exact (H err w1 w2 _ Ha Hr).
Defined.

(** C3 (the code departs from the claim).  Whatever [run] resolves with, it
    is [undefined]: the value of the operation is bound to [result] and
    dropped.  An operation that resolves with 3 gives [undefined]; and in the
    scenario of an operation that fails twice before returning 3, with at
    most 5 attempts and a linear backoff of 10, [run] resolves with
    [undefined] after one invocation. *)
Theorem run_resolves_with_undefined :
  (forall (this : RetryHelper) (w : World),
      match fst (run this w) with Ok v => v = VUndefined | _ => True end)
  /\ fst (run (example_helper (always_resolves (VNumber 3)) []) (world_at 0 0))
     = Ok VUndefined
  /\ (let r := run_with_attempts_and_backoff (fails_twice_then (VNumber 3)) 5 10 (world_at 0 0) in
      fst r = Ok VUndefined /\ calls (snd r) = 1%nat).
Proof.
  split; [|split; [reflexivity | split; reflexivity]].
  intros this w. rewrite run_unfold.
  destruct (await_f this (log EvOn w)) as [[v|err|] w1]; [reflexivity| |exact I].
  destruct (run_catch this 1 0 err w1) as [[d|e|] w2]; [reflexivity|exact I|exact I].
Qed.

(** The attempts guard: it counts its own calls and throws as soon as the
    count reaches [maxAttempts]. *)
Lemma MaxAttempts_check
    (i : nat) (opt : loc) (o : MaxAttemptsRetryAllowed.t)
    (numAttempts ts : Z) (err : Exn) (w : World) :
  heap w !! opt = Some (ObjMaxAttempts o) ->
  let attempts' := MaxAttemptsRetryAllowed.attempts o + 1 in
  let w' := set_heap (<[opt := ObjMaxAttempts
                          (MaxAttemptsRetryAllowed.mk attempts' (MaxAttemptsRetryAllowed.maxAttempts o))]>
                        (heap w))
                     (log (EvCheck i opt numAttempts ts err) w) in
  call_checkRetryAllowed i opt numAttempts ts err w
  = if attempts' >=? MaxAttemptsRetryAllowed.maxAttempts o
    then (Throw (MaxAttemptsException ("Max attempts exceeded: " +:+ pretty attempts') "429"), w')
    else (Ok tt, w').
Proof.
  intros E attempts' w'. unfold call_checkRetryAllowed, load, bind. rewrite E. cbn.
  unfold MaxAttemptsRetryAllowed_checkRetryAllowed, bind, store, throw, ret.
  fold attempts'. destruct (attempts' >=? MaxAttemptsRetryAllowed.maxAttempts o); reflexivity.
Qed.

Lemma call_retryDelayMs_no_method
    (i : nat) (opt : loc) (delayMs : Q) (ts : Z) (w : World) :
  implements_retryDelayMs <$> (heap w !! opt) <> Some true ->
  call_retryDelayMs i opt delayMs ts w = (Ok delayMs, w).
Proof.
  intros H. unfold call_retryDelayMs, load, bind.
  destruct (heap w !! opt) as [[o|o|o|o|o]|]; cbn in *; try reflexivity; congruence.
Qed.

(** C1 (the code departs from the claim).  With [MaxAttemptsRetryAllowed(n)]
    as the only option, [n] at least 2, and an operation that always fails,
    [run] invokes the operation once and resolves with [undefined]: it neither
    invokes the operation [n] times nor raises [MaxAttemptsException]. *)
Theorem run_with_max_attempts_invokes_once (n : Z) (err : JsVal) (w : World) :
  2 <= n ->
  exists w',
    run_with_max_attempts (always_rejects err) n w = (Ok VUndefined, w')
    /\ calls w' = S (calls w).
Proof.
  intros Hn. unfold run_with_max_attempts, RetryHelper_new, alloc, new_Date, bind, ret.
  rewrite run_unfold. cbn [await_f args always_rejects f].
  rewrite run_catch_unfold. cbn [options from_option id for_options]. unfold bind.
  match goal with
  | |- context [call_checkRetryAllowed ?i ?opt ?num ?ts ?e ?w0] =>
      rewrite (MaxAttempts_check i opt (MaxAttemptsRetryAllowed.new n) num ts e w0)
        by (cbn; apply list_lookup_middle; reflexivity)
  end.
  cbn [MaxAttemptsRetryAllowed.new MaxAttemptsRetryAllowed.attempts
       MaxAttemptsRetryAllowed.maxAttempts].
  replace (0 + 1 >=? n) with false by (symmetry; rewrite Z.geb_leb; apply Z.leb_gt; lia).
  rewrite call_retryDelayMs_no_method.
  - eexists. split; reflexivity.
  - cbn [heap set_heap log count_call tick].
    rewrite list_lookup_insert_eq by (rewrite length_app; cbn; lia). discriminate.
Qed.

Lemma run_with_max_attempts_invokes_once_witness :
  2 <= 3
  /\ fst (run_with_max_attempts (always_rejects (VObject 7)) 3 (world_at 0 0)) = Ok VUndefined.
Proof.
  split; [lia|].
  destruct (run_with_max_attempts_invokes_once 3 (VObject 7) (world_at 0 0)) as (w' & -> & _);
    [lia | reflexivity].
Defined.

(** C4.  In a round after a failed attempt, let the options before some
    position complete without a veto and let the check of the option at that
    position throw [e].  Then [run] is rejected with [e], in the world that
    check left: the vetoing check is the last thing the round does, so no
    method of a later option is called, nor [retryDelayMs] of the vetoing
    option; everything logged before it belongs to earlier positions. *)
Theorem first_veto_decides_and_short_circuits
    (this : RetryHelper) (pre post : list loc) (opt : loc)
    (w w0 w1 w2 : World) (err e : Exn) (d : Q) :
  options this = pre ++ opt :: post ->
  await_f this (log EvOn w) = (Throw err, w0) ->
  for_options 0 pre 1 (clock w0 (ticks w0)) err 0 (tick w0) = (Ok d, w1) ->
  call_checkRetryAllowed (length pre) opt 1 (clock w0 (ticks w0)) err w1 = (Throw e, w2) ->
  run this w = (Throw e, w2)
  /\ trace w2 = trace w1 ++ [EvCheck (length pre) opt 1 (clock w0 (ticks w0)) err]
  /\ exists t, trace w1 = trace w0 ++ t /\ Forall (round_event 0 (length pre)) t.
Proof.
  intros Hopts Ha Hpre Hveto. split; [|split].
  - rewrite run_unfold, Ha, run_catch_unfold, Hopts, for_options_app, Hpre.
    cbn [for_options Nat.add]. unfold bind at 1. rewrite Hveto. reflexivity.
  - apply call_checkRetryAllowed_cases in Hveto.
    destruct Hveto as (_ & _ & _ & _ & _ & _ & [[? _]|[?|[? _]]]);
      [discriminate | assumption | discriminate].
  - apply for_options_frame in Hpre.
    destruct Hpre as (_ & _ & _ & _ & t & Et & Ft). exists t. split; assumption.
Qed.

Lemma first_veto_decides_and_short_circuits_witness :
  let this := example_helper (always_rejects (VObject 7)) [1; 0; 2]%nat in
  let w := example_world in
  let err := Thrown (VObject 7) in
  let w0 := snd (await_f this (log EvOn w)) in
  let w1 := snd (for_options 0 [1%nat] 1 1000 err 0 (tick w0)) in
  let w2 := snd (call_checkRetryAllowed 1 0%nat 1 1000 err w1) in
  let e := MaxAttemptsException "Max attempts exceeded: 1" "429" in
  (options this = [1%nat] ++ 0%nat :: [2%nat]
   /\ await_f this (log EvOn w) = (Throw err, w0)
   /\ for_options 0 [1%nat] 1 (clock w0 (ticks w0)) err 0 (tick w0) = (Ok 10%Q, w1)
   /\ call_checkRetryAllowed 1 0%nat 1 (clock w0 (ticks w0)) err w1 = (Throw e, w2))
  /\ run this w = (Throw e, w2).
Proof.
  intros this w err w0 w1 w2 e.
  assert (H1 : options this = [1%nat] ++ 0%nat :: [2%nat]) by reflexivity.
  assert (H2 : await_f this (log EvOn w) = (Throw err, w0)) by reflexivity.
  assert (H3 : for_options 0 [1%nat] 1 (clock w0 (ticks w0)) err 0 (tick w0) = (Ok 10%Q, w1))
    by reflexivity.
  assert (H4 : call_checkRetryAllowed 1 0%nat 1 (clock w0 (ticks w0)) err w1 = (Throw e, w2))
    by reflexivity.
  split; [repeat split; assumption|].
  exact (proj1 (first_veto_decides_and_short_circuits
                  this [1%nat] [2%nat] 0%nat w w0 w1 w2 err e 10%Q H1 H2 H3 H4)).
Defined.

(** X17.  In a round that is not vetoed, the calls of [retryDelayMs] are made
    at the positions of the options that have the method, in registration
    order; the first receives the initial delay 0, every later one receives
    what the one before it returned, and the value the last one returned is
    the delay the round ends with.  That delay is the fold of the delay
    methods over the options, as the specification words it. *)
Theorem delay_folded_in_registration_order
    (this : RetryHelper) (numAttempts : Z) (err : Exn) (w w' : World) (d : Q) :
  run_catch this numAttempts 0 err w = (Ok d, w') ->
  (exists t,
      trace w' = trace w ++ t
      /\ chained 0 0 (delay_calls t) d
      /\ map (fun c => fst (fst c)) (delay_calls t)
         = delay_positions (heap w) 0 (options this))
  /\ fst (spec_contributeDelay_fold 0 (options this) (clock w (ticks w)) 0 (tick w))
     = Ok d.
Proof.
  rewrite run_catch_unfold. intros H. split.
  - apply for_options_chain in H. exact H.
  - destruct (for_options_refines_fold _ _ _ _ _ _ _ _ _ (tick w) H) as (v' & E & _).
    + repeat split.
    + rewrite E. reflexivity.
Qed.

Lemma delay_folded_in_registration_order_witness :
  let this := example_helper (always_rejects (VObject 7)) [0; 1; 2]%nat in
  let err := Thrown (VObject 7) in
  let w := set_heap [ObjMaxAttempts (MaxAttemptsRetryAllowed.new 3);
                     ObjLinearBackoff (LinearBackoff.new 10);
                     ObjDelayJitter (DelayJitter.mk 100 250)] (world_at 1000 (1 # 2)) in
  let w' := snd (run_catch this 1 0 err w) in
  run_catch this 1 0 err w = (Ok (170 # 2)%Q, w')
  /\ (exists t,
        trace w' = trace w ++ t
        /\ chained 0 0 (delay_calls t) (170 # 2)%Q
        /\ map (fun c => fst (fst c)) (delay_calls t) = [1; 2]%nat)
  /\ fst (spec_contributeDelay_fold 0 [0; 1; 2]%nat 1000 0 (tick w)) = Ok (170 # 2)%Q.
Proof.
  intros this err w w'.
  assert (H : run_catch this 1 0 err w = (Ok (170 # 2)%Q, w')) by reflexivity.
  split; [exact H|].
  exact (delay_folded_in_registration_order this 1 err w w' (170 # 2)%Q H).
Defined.

(** C5 (the code departs from the claim).  After a failed attempt that no
    option vetoes, [run] does fold the delay: its trace holds one call of
    [retryDelayMs] per option that has the method, in registration order,
    the first receiving 0, each later one receiving what the one before it
    returned, the last returning the delay [d] of the round, which is also
    the fold of the delay methods as the specification words it.  But [run]
    does not use [d]: it resolves with [undefined] in the very world the loop
    over the options ended in, and the round holds no sleep and no further
    invocation of the operation. *)
Theorem run_folds_the_delay_and_never_uses_it
    (this : RetryHelper) (w w1 w2 : World) (err : Exn) (d : Q) :
  await_f this (log EvOn w) = (Throw err, w1) ->
  run_catch this 1 0 err w1 = (Ok d, w2) ->
  run this w = (Ok VUndefined, w2)
  /\ exists t,
       trace (snd (run this w)) = trace w1 ++ t
       /\ chained 0 0 (delay_calls t) d
       /\ map (fun c => fst (fst c)) (delay_calls t)
          = delay_positions (heap w1) 0 (options this)
       /\ fst (spec_contributeDelay_fold 0 (options this) (clock w1 (ticks w1)) 0 (tick w1))
          = Ok d
       /\ count_events is_sleep t = 0%nat
       /\ count_events is_invoke t = 0%nat.
Proof.
  intros Ha Hr.
  assert (Hrun : run this w = (Ok VUndefined, w2))
    by (rewrite run_unfold, Ha, Hr; reflexivity).
  split; [exact Hrun|]. rewrite Hrun. cbn [snd].
  rewrite run_catch_unfold in Hr.
  destruct (for_options_chain _ _ _ _ _ _ _ _ _ Hr) as (t & Et & Hch & Hpos).
  destruct (for_options_frame _ _ _ _ _ _ _ _ _ Hr) as (_ & _ & _ & _ & t' & Et' & Ft).
  assert (t' = t) by (rewrite Et in Et'; exact (app_inv_head _ _ _ (eq_sym Et'))).
  subst t'. apply round_events_quiet in Ft. destruct Ft as [Fi Fs].
  destruct (for_options_refines_fold _ _ _ _ _ _ _ _ _ (tick w1) Hr) as (v' & Ef & _);
    [repeat split|].
  exists t. cbn [trace tick] in Et. cbn [heap tick] in Hpos.
  split; [exact Et|]. split; [exact Hch|]. split; [exact Hpos|].
  split; [rewrite Ef; reflexivity|]. split; assumption.
Qed.

Lemma run_folds_the_delay_and_never_uses_it_witness :
  let this := example_helper (always_rejects (VObject 7)) [0; 1; 2]%nat in
  let err := Thrown (VObject 7) in
  let w := set_heap [ObjMaxAttempts (MaxAttemptsRetryAllowed.new 3);
                     ObjLinearBackoff (LinearBackoff.new 10);
                     ObjDelayJitter (DelayJitter.mk 100 250)] (world_at 1000 (1 # 2)) in
  let w1 := snd (await_f this (log EvOn w)) in
  let w2 := snd (run_catch this 1 0 err w1) in
  (await_f this (log EvOn w) = (Throw err, w1)
   /\ run_catch this 1 0 err w1 = (Ok (170 # 2)%Q, w2))
  /\ run this w = (Ok VUndefined, w2)
  /\ exists t,
       trace (snd (run this w)) = trace w1 ++ t
       /\ chained 0 0 (delay_calls t) (170 # 2)%Q
       /\ map (fun c => fst (fst c)) (delay_calls t) = [1; 2]%nat
       /\ fst (spec_contributeDelay_fold 0 [0; 1; 2]%nat 1000 0 (tick w1)) = Ok (170 # 2)%Q
       /\ count_events is_sleep t = 0%nat
       /\ count_events is_invoke t = 0%nat.
Proof.
  intros this err w w1 w2.
  assert (Ha : await_f this (log EvOn w) = (Throw err, w1)) by reflexivity.
  assert (Hr : run_catch this 1 0 err w1 = (Ok (170 # 2)%Q, w2)) by reflexivity.
  split; [split; assumption|].
  exact (run_folds_the_delay_and_never_uses_it this w w1 w2 err (170 # 2)%Q Ha Hr).
Defined.

(** An option object registered twice is one object: a guard for 2 attempts
    listed at positions 0 and 1 counts both checks of the first round and
    vetoes at position 1. *)
Example shared_guard_counts_both_checks :
  let this := example_helper (always_rejects (VObject 7)) [0; 0]%nat in
  fst (run this shared_guard_world)
  = Throw (MaxAttemptsException "Max attempts exceeded: 2" "429")
  /\ heap (snd (run this shared_guard_world))
     = [ObjMaxAttempts (MaxAttemptsRetryAllowed.mk 2 2)].
Proof. split; reflexivity. Qed.

(* ================================================================== *)
(** * Part VIII.  Further properties of the option classes and of [run] *)
(* ================================================================== *)

(** ** The attempts guard over repeated runs *)

Lemma always_rejects_always_fails (v : JsVal) : always_fails (always_rejects v).
Proof. intros k a. exists v. left. reflexivity. Qed.

(** One run against a guard that has counted [a0] checks: the guard counts
    one more, and the run is rejected when the count has reached
    [maxAttempts]. *)
Lemma run_with_guard
    (this : RetryHelper) (m : loc) (a : list JsVal) (a0 n : Z) (w : World) :
  options this = [m] ->
  args this = Some a ->
  always_fails (f this) ->
  heap w !! m = Some (ObjMaxAttempts (MaxAttemptsRetryAllowed.mk a0 n)) ->
  exists w',
    run this w
    = (if a0 + 1 >=? n
       then Throw (MaxAttemptsException ("Max attempts exceeded: " +:+ pretty (a0 + 1)) "429")
       else Ok VUndefined, w')
    /\ heap w' !! m = Some (ObjMaxAttempts (MaxAttemptsRetryAllowed.mk (a0 + 1) n))
    /\ calls w' = S (calls w).
Proof.
  intros Hopts Hargs Hf Hm.
  assert (Hlt : (m < length (heap w))%nat) by (eapply lookup_lt_Some; exact Hm).
  rewrite run_unfold. unfold await_f. rewrite Hargs.
  assert (Ha : exists v, f this (calls (log EvOn w)) a = Rejects v
                         \/ f this (calls (log EvOn w)) a = SyncThrow v) by apply Hf.
  destruct Ha as (v & [E|E]); rewrite E;
    rewrite run_catch_unfold, Hopts; cbn [for_options]; unfold bind;
    match goal with
    | |- context [call_checkRetryAllowed ?i ?opt ?num ?ts ?e ?w0] =>
        rewrite (MaxAttempts_check i opt (MaxAttemptsRetryAllowed.mk a0 n) num ts e w0)
          by exact Hm
    end;
    cbn [MaxAttemptsRetryAllowed.attempts MaxAttemptsRetryAllowed.maxAttempts];
    destruct (a0 + 1 >=? n).
  all: try (eexists; split; [reflexivity|]; cbn; split;
            [apply list_lookup_insert_eq; exact Hlt | reflexivity]).
  all: rewrite call_retryDelayMs_no_method
    by (cbn; rewrite list_lookup_insert_eq by exact Hlt; discriminate).
  all: eexists; split; [reflexivity|]; cbn; split;
    [apply list_lookup_insert_eq; exact Hlt | reflexivity].
Qed.

Lemma run_repeatedly_with_guard
    (this : RetryHelper) (m : loc) (a : list JsVal) (n : Z) (k : nat) :
  options this = [m] ->
  args this = Some a ->
  always_fails (f this) ->
  forall (a0 : Z) (w : World),
    heap w !! m = Some (ObjMaxAttempts (MaxAttemptsRetryAllowed.mk a0 n)) ->
    fst (run_repeatedly k this w)
    = map (fun j : nat =>
             if a0 + Z.of_nat (S j) >=? n
             then Throw (MaxAttemptsException
                           ("Max attempts exceeded: " +:+ pretty (a0 + Z.of_nat (S j))) "429")
             else Ok VUndefined)
          (seq 0 k)
    /\ calls (snd (run_repeatedly k this w)) = (calls w + k)%nat.
Proof.
  intros Hopts Hargs Hf. induction k as [|k IH]; intros a0 w Hm.
  - cbn. split; [reflexivity | lia].
  - destruct (run_with_guard this m a a0 n w Hopts Hargs Hf Hm) as (w1 & Er & Hm1 & Hc1).
    cbn [run_repeatedly]. rewrite Er.
    destruct (IH (a0 + 1) w1 Hm1) as (Eo & Ec).
    destruct (run_repeatedly k this w1) as [rs w2]. cbn [fst snd] in *. split.
    + cbn [seq map]. rewrite <- seq_shift, map_map. f_equal.
      rewrite Eo. apply map_ext. intros j.
      replace (a0 + 1 + Z.of_nat (S j)) with (a0 + Z.of_nat (S (S j))) by lia.
      reflexivity.
    + rewrite Ec, Hc1. lia.
Qed.

(** X1.  A helper whose only option is a new [MaxAttemptsRetryAllowed(n)],
    around an operation that always fails, is run [k] times in a row.  Run
    number j resolves while j is below [n] and is rejected with
    [MaxAttemptsException], carrying the count j, from j = [n] on; every run
    invokes the operation once, [k] invocations in all. *)
Theorem repeated_runs_exhaust_the_guard
    (this : RetryHelper) (m : loc) (a : list JsVal) (n : Z) (k : nat) (w : World) :
  options this = [m] ->
  args this = Some a ->
  always_fails (f this) ->
  heap w !! m = Some (ObjMaxAttempts (MaxAttemptsRetryAllowed.new n)) ->
  fst (run_repeatedly k this w)
  = map (fun j : nat =>
           if Z.of_nat (S j) >=? n
           then Throw (MaxAttemptsException
                         ("Max attempts exceeded: " +:+ pretty (Z.of_nat (S j))) "429")
           else Ok VUndefined)
        (seq 0 k)
  /\ calls (snd (run_repeatedly k this w)) = (calls w + k)%nat.
Proof.
  intros Hopts Hargs Hf Hm.
  exact (run_repeatedly_with_guard this m a n k Hopts Hargs Hf 0 w Hm).
Qed.

Lemma repeated_runs_exhaust_the_guard_witness :
  let this := example_helper (always_rejects (VObject 7)) [0%nat] in
  fst (run_repeatedly 3 this shared_guard_world)
  = [Ok VUndefined;
     Throw (MaxAttemptsException "Max attempts exceeded: 2" "429");
     Throw (MaxAttemptsException "Max attempts exceeded: 3" "429")]
  /\ calls (snd (run_repeatedly 3 this shared_guard_world)) = 3%nat.
Proof.
  intros this.
  apply (repeated_runs_exhaust_the_guard this 0%nat [] 2 3 shared_guard_world);
    [reflexivity | reflexivity | apply always_rejects_always_fails | reflexivity].
Defined.

(** ** The linear backoff over repeated calls *)

Lemma inject_Z_of_nat_succ (k : nat) :
  (inject_Z (Z.of_nat (S k)) == inject_Z (Z.of_nat k) + 1)%Q.
Proof. rewrite Nat2Z.inj_succ. unfold Z.succ. rewrite inject_Z_plus. reflexivity. Qed.

Lemma retryDelayMs_calls_linear
    (opt : loc) (ts : Z) (d : Q) (n : Z) (previous : list Q) :
  forall (c : Q) (w : World),
    heap w !! opt = Some (ObjLinearBackoff (LinearBackoff.mk n c d)) ->
    exists (ds : list Q) (w' : World),
      retryDelayMs_calls opt ts previous w = (Ok ds, w')
      /\ length ds = length previous
      /\ forall (k : nat) (q : Q),
           ds !! k = Some q -> (q == c + inject_Z (Z.of_nat (S k)) * d)%Q.
Proof.
  induction previous as [|p ps IH]; intros c w Hl.
  - exists [], w. repeat split. intros k q Hk. discriminate.
  - assert (Hlt : (opt < length (heap w))%nat) by (eapply lookup_lt_Some; exact Hl).
    cbn [retryDelayMs_calls]. unfold bind at 1, call_retryDelayMs, load, bind at 1.
    rewrite Hl. cbn [mbind option_bind retryDelayMs].
    unfold bind at 1, LinearBackoff_retryDelayMs, bind, store, setTimeout, emit, ret.
    cbn [LinearBackoff.currentDelay LinearBackoff.delay LinearBackoff.attempts].
    match goal with
    | |- context [retryDelayMs_calls opt ts ps ?w1] =>
        destruct (IH (c + d)%Q w1) as (ds & w' & E & Hlen & Hds);
          [cbn; apply list_lookup_insert_eq; exact Hlt|]
    end.
    rewrite E. exists ((c + d)%Q :: ds), w'. split; [reflexivity|].
    split; [cbn; rewrite Hlen; reflexivity|].
    intros [|k] q Hk; cbn in Hk.
    + inversion Hk; subst. cbn. ring.
    + apply Hds in Hk. rewrite Hk, (inject_Z_of_nat_succ (S k)). ring.
Qed.

(** X2.  A new [LinearBackoff(delay)] returns [delay] on its first call of
    [retryDelayMs], twice [delay] on its second, and so on: call number k
    returns k times [delay], whatever delays the calls receive. *)
Theorem LinearBackoff_kth_call_returns_k_delays
    (opt : loc) (ts : Z) (delay : Q) (previous : list Q) (w : World) :
  heap w !! opt = Some (ObjLinearBackoff (LinearBackoff.new delay)) ->
  exists (ds : list Q) (w' : World),
    retryDelayMs_calls opt ts previous w = (Ok ds, w')
    /\ length ds = length previous
    /\ forall (k : nat) (q : Q),
         ds !! k = Some q -> (q == inject_Z (Z.of_nat (S k)) * delay)%Q.
Proof.
  intros Hl.
  destruct (retryDelayMs_calls_linear opt ts delay 0 previous 0%Q w Hl)
    as (ds & w' & E & Hlen & Hds).
  exists ds, w'. repeat split; try assumption.
  intros k q Hk. rewrite (Hds k q Hk). ring.
Qed.

Lemma LinearBackoff_kth_call_returns_k_delays_witness :
  exists (ds : list Q) (w' : World),
    retryDelayMs_calls 1%nat 1000 [0; 500; 7]%Q example_world = (Ok ds, w')
    /\ length ds = 3%nat
    /\ forall (k : nat) (q : Q),
         ds !! k = Some q -> (q == inject_Z (Z.of_nat (S k)) * 10)%Q.
Proof.
  apply (LinearBackoff_kth_call_returns_k_delays 1%nat 1000 10 [0; 500; 7]%Q example_world).
  reflexivity.
Defined.

(** X3.  When the last registered option is a [LinearBackoff] and the options
    before it complete, the delay of the round is that backoff's own
    accumulated delay: what the earlier options contributed is dropped. *)
Theorem last_LinearBackoff_drops_earlier_delays
    (this : RetryHelper) (pre : list loc) (l : loc) (o : LinearBackoff.t)
    (numAttempts : Z) (err : Exn) (w w1 : World) (d1 : Q) :
  options this = pre ++ [l] ->
  for_options 0 pre numAttempts (clock w (ticks w)) err 0 (tick w) = (Ok d1, w1) ->
  heap w1 !! l = Some (ObjLinearBackoff o) ->
  fst (run_catch this numAttempts 0 err w)
  = Ok (LinearBackoff.currentDelay o + LinearBackoff.delay o)%Q.
Proof.
  intros Hopts Hpre Hl.
  rewrite run_catch_unfold, Hopts, for_options_app, Hpre.
  cbn [for_options]. unfold bind at 1, call_checkRetryAllowed, load, bind at 1.
  rewrite Hl. cbn [mbind option_bind checkRetryAllowed]. unfold ret at 1.
  unfold bind at 1, call_retryDelayMs, load, bind at 1.
  rewrite Hl. reflexivity.
Qed.

Lemma last_LinearBackoff_drops_earlier_delays_witness :
  let this := example_helper (always_rejects (VObject 7)) [2; 1]%nat in
  let err := Thrown (VObject 7) in
  let w1 := snd (for_options 0 [2%nat] 1 1000 err 0 (tick example_world)) in
  for_options 0 [2%nat] 1 1000 err 0 (tick example_world) = (Ok (150 # 2)%Q, w1)
  /\ fst (run_catch this 1 0 err example_world) = Ok (0 + 10)%Q.
Proof.
  intros this err w1.
  assert (H : for_options 0 [2%nat] 1 (clock example_world (ticks example_world)) err 0
                (tick example_world) = (Ok (150 # 2)%Q, w1)) by reflexivity.
  split; [exact H|].
  exact (last_LinearBackoff_drops_earlier_delays this [2%nat] 1%nat (LinearBackoff.new 10)
           1 err example_world w1 (150 # 2)%Q eq_refl H eq_refl).
Defined.

(** ** The time guard, the jitter and the allow list *)

Lemma await_f_keeps_heap (this : RetryHelper) (w w' : World) (r : Result JsVal) :
  await_f this w = (r, w') ->
  heap w' = heap w /\ ticks w' = ticks w /\ clock w' = clock w
  /\ draws w' = draws w /\ random w' = random w.
Proof.
  intros H. destruct (await_f_cases _ _ _ _ H) as [(_ & -> & _)|(a & _ & ->)];
    repeat split.
Qed.

(** X4.  With [MaxTimeout(totalTimeoutMs)] as the only option, a failed
    attempt is vetoed exactly when the clock, read in the [catch] block as
    milliseconds since the epoch, has reached [totalTimeoutMs]: then [run] is
    rejected with [MaxTimeoutException] (code 408) and no timer is set;
    otherwise [run] resolves and one timer is set for the milliseconds that
    remain until [totalTimeoutMs]. *)
Theorem MaxTimeout_vetoes_from_totalTimeoutMs_on
    (this : RetryHelper) (mt : loc) (o : MaxTimeout.t) (err : Exn) (w w0 : World) :
  options this = [mt] ->
  heap w !! mt = Some (ObjMaxTimeout o) ->
  await_f this (log EvOn w) = (Throw err, w0) ->
  let now := clock w0 (ticks w0) in
  let checked := log (EvCheck 0 mt 1 now err) (tick w0) in
  run this w
  = if now >=? MaxTimeout.totalTimeoutMs o
    then (Throw (MaxTimeoutException
                   ("Attempt took longer than maximum specified "
                      +:+ pretty (MaxTimeout.totalTimeoutMs o) +:+ " milliseconds")
                   "408"),
          checked)
    else (Ok VUndefined,
          log (EvSetTimeout (inject_Z (MaxTimeout.totalTimeoutMs o - now))) checked).
Proof.
  intros Hopts Hm Ha now checked.
  destruct (await_f_keeps_heap _ _ _ _ Ha) as (Hh & _).
  cbn [heap log] in Hh.
  rewrite run_unfold, Ha, run_catch_unfold, Hopts. cbn [for_options].
  unfold bind at 1, call_checkRetryAllowed, load, bind at 1.
  cbn [heap tick]. rewrite Hh, Hm. cbn [mbind option_bind checkRetryAllowed].
  unfold bind at 1, emit. rewrite MaxTimeout_checkRetryAllowed_spec.
  fold now. fold checked.
  destruct (now >=? MaxTimeout.totalTimeoutMs o); [reflexivity|].
  unfold bind at 1. rewrite call_retryDelayMs_no_method; [reflexivity|].
  cbn [heap log]. subst checked. cbn [heap log tick]. rewrite Hh, Hm. discriminate.
Qed.

Lemma MaxTimeout_vetoes_from_totalTimeoutMs_on_witness :
  let this := example_helper (always_rejects (VObject 7)) [0%nat] in
  let w := set_heap [ObjMaxTimeout (MaxTimeout.new 1700000060000)]
                    (world_at 1700000000000 0) in
  let err := Thrown (VObject 7) in
  let w0 := snd (await_f this (log EvOn w)) in
  run this w
  = (Ok VUndefined,
     log (EvSetTimeout (inject_Z (1700000060000 - 1700000000000)))
         (log (EvCheck 0 0%nat 1 1700000000000 err) (tick w0))).
Proof.
  intros this w err w0.
  exact (MaxTimeout_vetoes_from_totalTimeoutMs_on this 0%nat (MaxTimeout.new 1700000060000)
           err w w0 eq_refl eq_refl eq_refl).
Defined.

(** X5.  A jitter option that its constructor accepted never lowers the delay
    and adds less than the width [maxJitterMs - minJitterMs]: for
    [Math.random()] in [[0, 1)] its [retryDelayMs] returns a delay in
    [[previous, previous + width)], reads [Math.random] once and changes no
    object. *)
Theorem constructed_jitter_adds_less_than_width
    (minJitterMs maxJitterMs : option Q) (i : nat) (l : loc)
    (previousDelayMs : Q) (ts : Z) (w w1 : World) :
  DelayJitter_new minJitterMs maxJitterMs w = (Ok l, w1) ->
  (0 <= random w1 (draws w1))%Q ->
  (random w1 (draws w1) < 1)%Q ->
  let width := (default 250%Q maxJitterMs - default 100%Q minJitterMs)%Q in
  exists (result : Q) (w2 : World),
    call_retryDelayMs i l previousDelayMs ts w1 = (Ok result, w2)
    /\ (previousDelayMs <= result)%Q
    /\ (result < previousDelayMs + width)%Q
    /\ draws w2 = S (draws w1)
    /\ heap w2 = heap w1.
Proof.
  intros Hnew H0 H1 width.
  unfold DelayJitter_new, bind, assert in Hnew.
  destruct (Qle_bool (default 250%Q maxJitterMs) (default 100%Q minJitterMs)) eqn:E;
    cbn in Hnew; [discriminate|].
  apply Qle_bool_false_lt in E.
  unfold alloc in Hnew. inversion Hnew; subst l w1; clear Hnew.
  cbn [random draws set_heap] in H0, H1.
  unfold call_retryDelayMs, load, bind at 1. cbn [heap set_heap].
  rewrite list_lookup_middle by reflexivity. cbn [mbind option_bind retryDelayMs].
  unfold bind at 1, DelayJitter_retryDelayMs, bind, Math_random, emit, ret.
  cbn [random draws set_heap DelayJitter.maxJitterMs DelayJitter.minJitterMs].
  eexists. eexists. split; [reflexivity|].
  split; [|split; [|split; reflexivity]]; subst width; nra.
Qed.

Lemma constructed_jitter_adds_less_than_width_witness :
  let w := world_at 1000 (1 # 2) in
  let w1 := snd (DelayJitter_new None None w) in
  DelayJitter_new None None w = (Ok 0%nat, w1)
  /\ exists (result : Q) (w2 : World),
       call_retryDelayMs 0 0%nat 10 1000 w1 = (Ok result, w2)
       /\ (10 <= result)%Q
       /\ (result < 10 + (250 - 100))%Q
       /\ draws w2 = S (draws w1)
       /\ heap w2 = heap w1.
Proof.
  intros w w1.
  assert (H : DelayJitter_new None None w = (Ok 0%nat, w1)) by reflexivity.
  split; [exact H|].
  apply (constructed_jitter_adds_less_than_width None None 0 0%nat 10 1000 w w1 H).
  - unfold Qle; simpl; lia.
  - reflexivity.
Defined.

(** X6.  With [RetriableExceptions(errors)] as the only option, a failed
    attempt lets [run] resolve exactly when the error is a value the operation
    threw and that value is in [errors]; in every other case [run] is
    rejected with a [NonretriableException] (code 500) that carries the error
    as its cause. *)
Theorem RetriableExceptions_admits_only_listed_errors
    (this : RetryHelper) (re : loc) (o : RetriableExceptions.t) (err : Exn) (w w0 : World) :
  options this = [re] ->
  heap w !! re = Some (ObjRetriableExceptions o) ->
  await_f this (log EvOn w) = (Throw err, w0) ->
  (fst (run this w) = Ok VUndefined
   <-> exists v, err = Thrown v /\ v ∈ RetriableExceptions.errors o)
  /\ (fst (run this w) <> Ok VUndefined ->
      fst (run this w)
      = Throw (NonretriableException
                 ("Attempt threw nonretriable exception: " +:+ typeof err) "500" err)).
Proof.
  intros Hopts Hm Ha.
  destruct (await_f_keeps_heap _ _ _ _ Ha) as (Hh & _). cbn [heap log] in Hh.
  assert (E : fst (run this w)
              = if includes (RetriableExceptions.errors o) err
                then Ok VUndefined
                else Throw (NonretriableException
                              ("Attempt threw nonretriable exception: " +:+ typeof err)
                              "500" err)).
  { rewrite run_unfold, Ha, run_catch_unfold, Hopts. cbn [for_options].
    unfold bind at 1, call_checkRetryAllowed, load, bind at 1.
    cbn [heap tick]. rewrite Hh, Hm. cbn [mbind option_bind checkRetryAllowed].
    unfold bind at 1, emit, RetriableExceptions_checkRetryAllowed.
    destruct (includes (RetriableExceptions.errors o) err); [|reflexivity].
    unfold ret at 1, bind at 1. rewrite call_retryDelayMs_no_method; [reflexivity|].
    cbn [heap log tick]. rewrite Hh, Hm. discriminate. }
  rewrite E. split.
  - unfold includes. destruct err as [v| | | | |]; cbn.
    + destruct (bool_decide (v ∈ RetriableExceptions.errors o)) eqn:B.
      * apply bool_decide_eq_true in B. split; [eauto | reflexivity].
      * apply bool_decide_eq_false in B. split; [discriminate|].
        intros (v' & Ev & Hin). inversion Ev; subst. contradiction.
    + split; [discriminate | intros (v & Ev & _); discriminate].
    + split; [discriminate | intros (v & Ev & _); discriminate].
    + split; [discriminate | intros (v & Ev & _); discriminate].
    + split; [discriminate | intros (v & Ev & _); discriminate].
    + split; [discriminate | intros (v & Ev & _); discriminate].
  - destruct (includes (RetriableExceptions.errors o) err); [congruence | reflexivity].
Qed.

Lemma RetriableExceptions_admits_only_listed_errors_witness :
  let this := example_helper (always_rejects (VObject 7)) [0%nat] in
  let w := set_heap [ObjRetriableExceptions (RetriableExceptions.new [VObject 3; VObject 7])]
                    (world_at 1000 0) in
  fst (run this w) = Ok VUndefined
  <-> exists v, Thrown (VObject 7) = Thrown v /\ v ∈ [VObject 3; VObject 7].
Proof.
  intros this w.
  exact (proj1 (RetriableExceptions_admits_only_listed_errors this 0%nat
                  (RetriableExceptions.new [VObject 3; VObject 7]) (Thrown (VObject 7))
                  w (snd (await_f this (log EvOn w))) eq_refl eq_refl eq_refl)).
Defined.

(** ** Attempts that do not reach the options *)

(** X7.  Runs of an operation that succeeds never reach the options: each of
    [k] runs in a row resolves with [undefined], no option object changes,
    the clock is not read, and the operation is invoked once per run. *)
Theorem successful_runs_leave_options_untouched
    (this : RetryHelper) (a : list JsVal) (k : nat) (w : World) :
  args this = Some a ->
  (forall j : nat, exists v, f this j a = Resolves v) ->
  fst (run_repeatedly k this w) = replicate k (Ok VUndefined)
  /\ heap (snd (run_repeatedly k this w)) = heap w
  /\ ticks (snd (run_repeatedly k this w)) = ticks w
  /\ calls (snd (run_repeatedly k this w)) = (calls w + k)%nat.
Proof.
  intros Hargs Hf. revert w. induction k as [|k IH]; intros w.
  - cbn. repeat split. lia.
  - cbn [run_repeatedly]. rewrite run_unfold. unfold await_f. rewrite Hargs.
    destruct (Hf (calls (log EvOn w))) as (v & ->).
    match goal with
    | |- context [run_repeatedly k this ?w1] =>
        destruct (IH w1) as (Eo & Eh & Et & Ec);
          destruct (run_repeatedly k this w1) as [rs w2]
    end.
    cbn [fst snd] in *. rewrite Eo, Eh, Et, Ec. cbn. repeat split. lia.
Qed.

Lemma successful_runs_leave_options_untouched_witness :
  let this := example_helper (always_resolves (VNumber 3)) [0; 1; 2]%nat in
  fst (run_repeatedly 4 this example_world) = replicate 4 (Ok VUndefined)
  /\ heap (snd (run_repeatedly 4 this example_world)) = heap example_world
  /\ ticks (snd (run_repeatedly 4 this example_world)) = ticks example_world
  /\ calls (snd (run_repeatedly 4 this example_world)) = (calls example_world + 4)%nat.
Proof.
  intros this.
  apply (successful_runs_leave_options_untouched this [] 4 example_world);
    [reflexivity | intros j; exists (VNumber 3); reflexivity].
Defined.

(** X8.  A helper built without [args] never invokes the operation: the
    spread of the missing array throws inside the [try] block, and the
    options see a [TypeError].  When the first option is a
    [RetriableExceptions], whatever its list, [run] is then rejected with a
    [NonretriableException] whose cause is that [TypeError]. *)
Theorem missing_args_never_invoke_the_operation (this : RetryHelper) (w : World) :
  args this = None ->
  calls (snd (run this w)) = calls w
  /\ forall (re : loc) (o : RetriableExceptions.t) (rest : list loc),
       options this = re :: rest ->
       heap w !! re = Some (ObjRetriableExceptions o) ->
       exists msg,
         fst (run this w)
         = Throw (NonretriableException
                    "Attempt threw nonretriable exception: object" "500" (TypeError msg)).
Proof.
  intros Hargs. rewrite run_unfold. unfold await_f. rewrite Hargs. unfold throw.
  rewrite run_catch_unfold. split.
  - destruct (for_options 0 (options this) 1 (clock (log EvOn w) (ticks (log EvOn w)))
                (TypeError "this.args is not iterable") 0 (tick (log EvOn w)))
      as [r w2] eqn:E.
    apply for_options_frame in E. destruct E as (Hc & _).
    destruct r; cbn; exact Hc.
  - intros re o rest Hopts Hre. rewrite Hopts. cbn [for_options].
    unfold bind at 1, call_checkRetryAllowed, load, bind at 1.
    cbn [heap tick log]. rewrite Hre. cbn. eexists. reflexivity.
Qed.

Lemma missing_args_never_invoke_the_operation_witness :
  let this := mkRetryHelper 999 (always_resolves (VNumber 3)) None [0%nat] in
  let w := set_heap [ObjRetriableExceptions (RetriableExceptions.new [VObject 7])]
                    (world_at 1000 0) in
  calls (snd (run this w)) = calls w
  /\ exists msg,
       fst (run this w)
       = Throw (NonretriableException
                  "Attempt threw nonretriable exception: object" "500" (TypeError msg)).
Proof.
  intros this w.
  destruct (missing_args_never_invoke_the_operation this w eq_refl) as (Hc & Hr).
  split; [exact Hc|].
  exact (Hr 0%nat (RetriableExceptions.new [VObject 7]) [] eq_refl eq_refl).
Defined.

(** ** What every round keeps fixed *)

Lemma call_checkRetryAllowed_called_with
    (i : nat) (opt : loc) (numAttempts ts : Z) (err : Exn) (w w' : World) (r : Result unit) :
  call_checkRetryAllowed i opt numAttempts ts err w = (r, w') ->
  exists t, trace w' = trace w ++ t /\ Forall (called_with numAttempts ts) t.
Proof.
  intros H. apply call_checkRetryAllowed_cases in H.
  destruct H as (_ & _ & _ & _ & _ & _ & [[_ ->]|[->|[_ [ms ->]]]]).
  - exists []. split; [symmetry; apply app_nil_r | constructor].
  - eexists. split; [reflexivity|]. repeat constructor.
  - eexists. split; [reflexivity|]. repeat constructor.
Qed.

Lemma call_retryDelayMs_called_with
    (i : nat) (opt : loc) (numAttempts : Z) (delayMs : Q) (ts : Z) (w w' : World) (r : Result Q) :
  call_retryDelayMs i opt delayMs ts w = (r, w') ->
  exists t, trace w' = trace w ++ t /\ Forall (called_with numAttempts ts) t.
Proof.
  intros H. apply call_retryDelayMs_cases in H.
  destruct H as (_ & _ & _ & result & t & _ & Et & [(Ht & _)|(_ & [Ht|[ms Ht]])]);
    exists t; (split; [assumption|]); rewrite Ht; repeat constructor.
Qed.

Lemma for_options_called_with
    (options : list loc) (numAttempts ts : Z) (err : Exn) :
  forall (i : nat) (delayMs : Q) (w w' : World) (r : Result Q),
    for_options i options numAttempts ts err delayMs w = (r, w') ->
    exists t, trace w' = trace w ++ t /\ Forall (called_with numAttempts ts) t.
Proof.
  induction options as [|opt rest IH]; intros i delayMs w w' r H.
  - inversion H; subst. exists []. split; [symmetry; apply app_nil_r | constructor].
  - cbn [for_options] in H. unfold bind at 1 in H.
    destruct (call_checkRetryAllowed i opt numAttempts ts err w) as [rc wc] eqn:Ec.
    destruct (call_checkRetryAllowed_called_with _ _ _ _ _ _ _ _ Ec) as (tc & Etc & Ftc).
    destruct rc as [[]|e|]; [|inversion H; subst; eauto|inversion H; subst; eauto].
    unfold bind at 1 in H.
    destruct (call_retryDelayMs i opt delayMs ts wc) as [rd wd] eqn:Ed.
    destruct (call_retryDelayMs_called_with _ _ numAttempts _ _ _ _ _ Ed) as (td & Etd & Ftd).
    destruct rd as [d|e|]; [|inversion H; subst|inversion H; subst].
    + apply IH in H. destruct H as (t & Et & Ft).
      exists (tc ++ td ++ t). split.
      * rewrite Et, Etd, Etc, <- !app_assoc. reflexivity.
      * repeat (apply Forall_app; split); assumption.
    + exists (tc ++ td). split; [rewrite Etd, Etc, <- app_assoc; reflexivity|].
      apply Forall_app; split; assumption.
    + exists (tc ++ td). split; [rewrite Etd, Etc, <- app_assoc; reflexivity|].
      apply Forall_app; split; assumption.
Qed.

(** X9.  In one call of [run] every option method is called with the attempt
    count 1 and with one and the same timestamp, and the clock is read at
    most once. *)
Theorem run_passes_attempt_one_and_one_timestamp (this : RetryHelper) (w : World) :
  exists (t : list Event) (ts : Z),
    trace (snd (run this w)) = trace w ++ t
    /\ Forall (called_with 1 ts) t
    /\ (ticks (snd (run this w)) <= S (ticks w))%nat.
Proof.
  rewrite run_unfold.
  destruct (await_f this (log EvOn w)) as [r w1] eqn:Ea.
  destruct (await_f_keeps_heap _ _ _ _ Ea) as (_ & Ht & _).
  assert (Hta : exists ta, trace w1 = trace w ++ ta /\ Forall (called_with 1 0) ta
                           /\ forall ts, Forall (called_with 1 ts) ta).
  { destruct (await_f_cases _ _ _ _ Ea) as [(_ & -> & _)|(a & _ & ->)].
    - exists [EvOn]. split; [reflexivity|]. split; [|intros ts]; repeat constructor.
    - exists [EvOn; EvInvoke a]. cbn. rewrite <- app_assoc.
      split; [reflexivity|]. split; [|intros ts]; repeat constructor. }
  destruct Hta as (ta & Eta & _ & Fta).
  destruct r as [v|err|].
  - exists ta, 0. cbn. split; [exact Eta|]. split; [apply Fta | rewrite Ht; cbn; lia].
  - rewrite run_catch_unfold.
    destruct (for_options 0 (options this) 1 (clock w1 (ticks w1)) err 0 (tick w1))
      as [r2 w2] eqn:Ef.
    pose proof (for_options_frame _ _ _ _ _ _ _ _ _ Ef) as (_ & Ht2 & _).
    apply for_options_called_with in Ef. destruct Ef as (t & Et & Ft).
    exists (ta ++ t), (clock w1 (ticks w1)).
    assert (trace w2 = trace w ++ ta ++ t)
      by (rewrite Et; cbn; rewrite Eta, <- app_assoc; reflexivity).
    assert (ticks w2 <= S (ticks w))%nat by (rewrite Ht2; cbn; rewrite Ht; cbn; lia).
    destruct r2; cbn; (split; [assumption|]); (split; [|assumption]);
      apply Forall_app; split; auto.
  - exists ta, 0. cbn. split; [exact Eta|]. split; [apply Fta | rewrite Ht; cbn; lia].
Qed.

Lemma call_checkRetryAllowed_configuration
    (i : nat) (opt : loc) (numAttempts ts : Z) (err : Exn) (w w' : World) (r : Result unit) :
  call_checkRetryAllowed i opt numAttempts ts err w = (r, w') ->
  configuration <$> heap w' = configuration <$> heap w.
Proof.
  intros H. unfold call_checkRetryAllowed, bind, load in H.
  destruct (heap w !! opt) as [[o|o|o|o|o]|] eqn:E; cbn in H; unfold_monad; cbn in H;
    repeat match type of H with
           | context [if ?c then _ else _] => destruct c
           end;
    inversion H; subst; clear H; cbn; try reflexivity.
  all: rewrite list_fmap_insert; apply list_insert_id;
    rewrite list_lookup_fmap, E; reflexivity.
Qed.

Lemma call_retryDelayMs_configuration
    (i : nat) (opt : loc) (delayMs : Q) (ts : Z) (w w' : World) (r : Result Q) :
  call_retryDelayMs i opt delayMs ts w = (r, w') ->
  configuration <$> heap w' = configuration <$> heap w.
Proof.
  intros H. unfold call_retryDelayMs, bind, load in H.
  destruct (heap w !! opt) as [[o|o|o|o|o]|] eqn:E; cbn in H; unfold_monad; cbn in H;
    inversion H; subst; clear H; cbn; try reflexivity.
  rewrite list_fmap_insert; apply list_insert_id.
  rewrite list_lookup_fmap, E; reflexivity.
Qed.

Lemma for_options_configuration
    (options : list loc) (numAttempts ts : Z) (err : Exn) :
  forall (i : nat) (delayMs : Q) (w w' : World) (r : Result Q),
    for_options i options numAttempts ts err delayMs w = (r, w') ->
    configuration <$> heap w' = configuration <$> heap w.
Proof.
  induction options as [|opt rest IH]; intros i delayMs w w' r H.
  - inversion H; reflexivity.
  - cbn [for_options] in H. unfold bind at 1 in H.
    destruct (call_checkRetryAllowed i opt numAttempts ts err w) as [rc wc] eqn:Ec.
    apply call_checkRetryAllowed_configuration in Ec.
    destruct rc as [[]|e|]; [|inversion H; subst; exact Ec|inversion H; subst; exact Ec].
    unfold bind at 1 in H.
    destruct (call_retryDelayMs i opt delayMs ts wc) as [rd wd] eqn:Ed.
    apply call_retryDelayMs_configuration in Ed.
    destruct rd as [d|e|]; [|inversion H; subst; congruence|inversion H; subst; congruence].
    apply IH in H. congruence.
Qed.

(** X10.  [run] creates no object and changes no option's configuration:
    every object of the heap stays in its class with the [maxAttempts],
    [delay], [totalTimeoutMs], jitter bounds or error list it was built with;
    only the counters [attempts] and [currentDelay] move. *)
Theorem run_keeps_configurations (this : RetryHelper) (w : World) :
  configuration <$> heap (snd (run this w)) = configuration <$> heap w.
Proof.
  rewrite run_unfold.
  destruct (await_f this (log EvOn w)) as [r w1] eqn:Ea.
  destruct (await_f_keeps_heap _ _ _ _ Ea) as (Hh & _). cbn [heap log] in Hh.
  destruct r as [v|err|]; cbn [snd]; [rewrite Hh; reflexivity| |rewrite Hh; reflexivity].
  rewrite run_catch_unfold.
  destruct (for_options 0 (options this) 1 (clock w1 (ticks w1)) err 0 (tick w1))
    as [r2 w2] eqn:Ef.
  apply for_options_configuration in Ef. cbn [heap tick] in Ef.
  destruct r2; cbn [snd]; rewrite Ef, Hh; reflexivity.
Qed.

(** ** What [run] can be rejected with *)

Lemma call_checkRetryAllowed_throws_library
    (i : nat) (opt : loc) (numAttempts ts : Z) (err e : Exn) (w w' : World) :
  call_checkRetryAllowed i opt numAttempts ts err w = (Throw e, w') ->
  library_exception e.
Proof.
  intros H. unfold call_checkRetryAllowed, bind, load in H.
  destruct (heap w !! opt) as [[o|o|o|o|o]|] eqn:E; cbn in H; unfold_monad; cbn in H;
    repeat match type of H with
           | context [if ?c then _ else _] => destruct c
           end;
    inversion H; subst; exact I.
Qed.

Lemma for_options_throws_library
    (options : list loc) (numAttempts ts : Z) (err e : Exn) :
  forall (i : nat) (delayMs : Q) (w w' : World),
    for_options i options numAttempts ts err delayMs w = (Throw e, w') ->
    library_exception e /\ options <> [].
Proof.
  induction options as [|opt rest IH]; intros i delayMs w w' H; [discriminate|].
  split; [|discriminate].
  cbn [for_options] in H. unfold bind at 1 in H.
  destruct (call_checkRetryAllowed i opt numAttempts ts err w) as [rc wc] eqn:Ec.
  destruct rc as [[]|e'|]; [|inversion H; subst|discriminate].
  - unfold bind at 1 in H.
    destruct (call_retryDelayMs i opt delayMs ts wc) as [rd wd] eqn:Ed.
    apply call_retryDelayMs_cases in Ed.
    destruct Ed as (_ & _ & _ & result & t & -> & _).
    apply IH in H. apply H.
  - eapply call_checkRetryAllowed_throws_library. exact Ec.
Qed.

(** X11.  [run] is only ever rejected by an option: the exception is a
    [MaxAttemptsException], a [MaxTimeoutException] or a
    [NonretriableException], never the error of the operation itself, and a
    helper without options is never rejected. *)
Theorem run_is_rejected_only_by_an_option (this : RetryHelper) (w : World) (e : Exn) :
  fst (run this w) = Throw e ->
  library_exception e /\ options this <> [].
Proof.
  rewrite run_unfold.
  destruct (await_f this (log EvOn w)) as [[v|err|] w1]; [discriminate| |discriminate].
  rewrite run_catch_unfold.
  destruct (for_options 0 (options this) 1 (clock w1 (ticks w1)) err 0 (tick w1))
    as [[d|e'|] w2] eqn:Ef; [discriminate| |discriminate].
  cbn. intros H. inversion H; subst.
  eapply for_options_throws_library. exact Ef.
Qed.

Lemma run_is_rejected_only_by_an_option_witness :
  let this := example_helper (always_rejects (VObject 7)) [0%nat] in
  let e := MaxAttemptsException "Max attempts exceeded: 1" "429" in
  fst (run this example_world) = Throw e
  /\ library_exception e /\ options this <> [].
Proof.
  intros this e.
  assert (H : fst (run this example_world) = Throw e) by reflexivity.
  split; [exact H|].
  exact (run_is_rejected_only_by_an_option this example_world e H).
Defined.

(** ** Registering an option *)

(** X12.  [add] registers the option behind the ones already there: a round
    over the extended helper is the round over the original helper followed,
    when no earlier option vetoes, by the check and then the delay method of
    the added option, at the position after the last. *)
Theorem added_option_is_consulted_last
    (this : RetryHelper) (opt : loc) (numAttempts : Z) (d0 : Q) (err : Exn) (w : World) :
  run_catch (add this opt) numAttempts d0 err w
  = match run_catch this numAttempts d0 err w with
    | (Ok d, w1) =>
        (let* _ := call_checkRetryAllowed (length (options this)) opt
                     numAttempts (clock w (ticks w)) err in
         call_retryDelayMs (length (options this)) opt d (clock w (ticks w))) w1
    | (Throw e, w1) => (Throw e, w1)
    | (Pending, w1) => (Pending, w1)
    end.
Proof.
  rewrite !run_catch_unfold. cbn [options add]. rewrite for_options_app.
  destruct (for_options 0 (options this) numAttempts (clock w (ticks w)) err d0 (tick w))
    as [[d|e|] w1]; try reflexivity.
  cbn [for_options Nat.add]. unfold bind.
  destruct (call_checkRetryAllowed (length (options this)) opt numAttempts
              (clock w (ticks w)) err w1) as [[[]|e|] wc]; try reflexivity.
  destruct (call_retryDelayMs (length (options this)) opt d (clock w (ticks w)) wc)
    as [[d'|e|] wd]; reflexivity.
Qed.

(** ** The linear policy and its [increment] *)

(** X13.  The [increment] argument of [LinearBackoffPolicy] has no effect on
    the delays: two policies built with the same [delay] return the same
    value on every call.  The field itself holds [delay] when the argument
    was missing or 0 and stays unset when an increment was passed, before and
    after any number of calls. *)
Theorem LinearBackoffPolicy_ignores_increment
    (delay : Q) (increment increment' : option Q) (n : nat) :
  call_result n (LinearBackoffPolicy.new delay increment)
  = call_result n (LinearBackoffPolicy.new delay increment')
  /\ LinearBackoffPolicy.increment (after_calls n (LinearBackoffPolicy.new delay increment))
     = (if falsy increment then Some delay else None).
Proof.
  split.
  - rewrite !linear_call_result. reflexivity.
  - rewrite linear_after_calls. reflexivity.
Qed.

(** ** The sign of the delay *)

Lemma call_checkRetryAllowed_nonnegative
    (i : nat) (opt : loc) (numAttempts ts : Z) (err : Exn) (w w' : World) (r : Result unit) :
  call_checkRetryAllowed i opt numAttempts ts err w = (r, w') ->
  Forall nonnegative_contributor (heap w) ->
  Forall nonnegative_contributor (heap w') /\ random w' = random w.
Proof.
  intros H G. unfold call_checkRetryAllowed, bind, load in H.
  destruct (heap w !! opt) as [[o|o|o|o|o]|] eqn:E; cbn in H; unfold_monad; cbn in H;
    repeat match type of H with
           | context [if ?c then _ else _] => destruct c
           end;
    inversion H; subst; clear H; cbn; split; try reflexivity; try assumption.
  all: apply Forall_insert; [assumption | exact I].
Qed.

Lemma call_retryDelayMs_nonnegative
    (i : nat) (opt : loc) (delayMs : Q) (ts : Z) (w w' : World) (r : Result Q) :
  call_retryDelayMs i opt delayMs ts w = (r, w') ->
  Forall nonnegative_contributor (heap w) ->
  (forall k : nat, (0 <= random w k)%Q) ->
  (0 <= delayMs)%Q ->
  exists result,
    r = Ok result /\ (0 <= result)%Q
    /\ Forall nonnegative_contributor (heap w') /\ random w' = random w.
Proof.
  intros H G Hr Hd. unfold call_retryDelayMs, bind, load in H.
  destruct (heap w !! opt) as [[o|o|o|o|o]|] eqn:E; cbn in H; unfold_monad; cbn in H;
    inversion H; subst; clear H; cbn; eexists; (split; [reflexivity|]).
  all: try (repeat split; assumption).
  - pose proof (Forall_lookup_1 _ _ _ _ G E) as [Hc Hdl]. cbn in Hc, Hdl.
    split; [nra|]. split; [|reflexivity].
    apply Forall_insert; [assumption|]. cbn. split; [nra | assumption].
  - pose proof (Forall_lookup_1 _ _ _ _ G E) as Hb. cbn in Hb.
    pose proof (Hr (draws w)) as H0.
    split; [nra|]. split; [assumption | reflexivity].
Qed.

Lemma for_options_nonnegative
    (options : list loc) (numAttempts ts : Z) (err : Exn) :
  forall (i : nat) (d0 d : Q) (w w' : World),
    for_options i options numAttempts ts err d0 w = (Ok d, w') ->
    Forall nonnegative_contributor (heap w) ->
    (forall k : nat, (0 <= random w k)%Q) ->
    (0 <= d0)%Q ->
    (0 <= d)%Q /\ Forall nonnegative_contributor (heap w').
Proof.
  induction options as [|opt rest IH]; intros i d0 d w w' H G Hr Hd.
  - inversion H; subst. split; assumption.
  - cbn [for_options] in H. unfold bind at 1 in H.
    destruct (call_checkRetryAllowed i opt numAttempts ts err w) as [rc wc] eqn:Ec.
    destruct (call_checkRetryAllowed_nonnegative _ _ _ _ _ _ _ _ Ec G) as (Gc & Rc).
    destruct rc as [[]|e|]; [|discriminate|discriminate].
    unfold bind at 1 in H.
    destruct (call_retryDelayMs i opt d0 ts wc) as [rd wd] eqn:Ed.
    destruct (call_retryDelayMs_nonnegative _ _ _ _ _ _ _ Ed Gc) as (res & -> & Hres & Gd & Rd);
      [rewrite Rc; exact Hr | exact Hd |].
    eapply IH; [exact H | exact Gd | rewrite Rd, Rc; exact Hr | exact Hres].
Qed.

(** X14.  The delay of a round is never negative, provided no contributor of
    the heap can make it so: every linear backoff has a non-negative [delay]
    and accumulated delay, every jitter has its bounds in order, and
    [Math.random] returns non-negative numbers.  The round keeps the heap in
    that state. *)
Theorem round_delay_is_not_negative
    (this : RetryHelper) (numAttempts : Z) (err : Exn) (w w' : World) (d : Q) :
  Forall nonnegative_contributor (heap w) ->
  (forall k : nat, (0 <= random w k)%Q) ->
  run_catch this numAttempts 0 err w = (Ok d, w') ->
  (0 <= d)%Q /\ Forall nonnegative_contributor (heap w').
Proof.
  intros G Hr H. rewrite run_catch_unfold in H.
  eapply for_options_nonnegative; [exact H | exact G | exact Hr | apply Qle_refl].
Qed.

Lemma round_delay_is_not_negative_witness :
  let this := example_helper (always_rejects (VObject 7)) [1; 2; 1]%nat in
  let err := Thrown (VObject 7) in
  let w' := snd (run_catch this 1 0 err example_world) in
  run_catch this 1 0 err example_world = (Ok (0 + 10 + 10)%Q, w')
  /\ (0 <= 0 + 10 + 10)%Q /\ Forall nonnegative_contributor (heap w').
Proof.
  intros this err w'.
  assert (H : run_catch this 1 0 err example_world = (Ok (0 + 10 + 10)%Q, w')) by reflexivity.
  split; [exact H|].
  apply (round_delay_is_not_negative this 1 err example_world w' (0 + 10 + 10)%Q).
  - repeat constructor; cbn; unfold Qle; simpl; lia.
  - intros k. unfold Qle; simpl; lia.
  - exact H.
Defined.

(** ** One guard at several positions *)

Lemma call_checkRetryAllowed_elsewhere
    (i : nat) (opt m : loc) (numAttempts ts : Z) (err : Exn) (w w' : World) (r : Result unit) :
  call_checkRetryAllowed i opt numAttempts ts err w = (r, w') ->
  m <> opt ->
  heap w' !! m = heap w !! m.
Proof.
  intros H Hne. unfold call_checkRetryAllowed, bind, load in H.
  destruct (heap w !! opt) as [[o|o|o|o|o]|] eqn:E; cbn in H; unfold_monad; cbn in H;
    repeat match type of H with
           | context [if ?c then _ else _] => destruct c
           end;
    inversion H; subst; clear H; cbn; try reflexivity.
  all: apply list_lookup_insert_ne; congruence.
Qed.

Lemma call_retryDelayMs_keeps_guards
    (i : nat) (opt m : loc) (g : MaxAttemptsRetryAllowed.t)
    (delayMs : Q) (ts : Z) (w w' : World) (r : Result Q) :
  call_retryDelayMs i opt delayMs ts w = (r, w') ->
  heap w !! m = Some (ObjMaxAttempts g) ->
  heap w' !! m = Some (ObjMaxAttempts g).
Proof.
  intros H Hm. unfold call_retryDelayMs, bind, load in H.
  destruct (heap w !! opt) as [[o|o|o|o|o]|] eqn:E; cbn in H; unfold_monad; cbn in H;
    inversion H; subst; clear H; cbn; try assumption.
  rewrite list_lookup_insert_ne; [assumption|]. intros ->. congruence.
Qed.

Lemma for_options_counts_positions
    (options : list loc) (m : loc) (n numAttempts ts : Z) (err : Exn) :
  forall (i : nat) (a : Z) (d0 d : Q) (w w' : World),
    heap w !! m = Some (ObjMaxAttempts (MaxAttemptsRetryAllowed.mk a n)) ->
    for_options i options numAttempts ts err d0 w = (Ok d, w') ->
    heap w' !! m
    = Some (ObjMaxAttempts
              (MaxAttemptsRetryAllowed.mk (a + Z.of_nat (count_occ Nat.eq_dec options m)) n)).
Proof.
  induction options as [|opt rest IH]; intros i a d0 d w w' Hm H.
  - inversion H; subst. cbn. rewrite Z.add_0_r. exact Hm.
  - cbn [for_options] in H. unfold bind at 1 in H.
    destruct (call_checkRetryAllowed i opt numAttempts ts err w) as [rc wc] eqn:Ec.
    destruct rc as [[]|e|]; [|discriminate|discriminate].
    unfold bind at 1 in H.
    destruct (call_retryDelayMs i opt d0 ts wc) as [rd wd] eqn:Ed.
    destruct rd as [d1|e|]; [|discriminate|discriminate].
    cbn [count_occ]. destruct (Nat.eq_dec opt m) as [->|Hne].
    + assert (Hlt : (m < length (heap w))%nat) by (eapply lookup_lt_Some; exact Hm).
      rewrite (MaxAttempts_check i m _ numAttempts ts err w Hm) in Ec.
      cbn [MaxAttemptsRetryAllowed.attempts MaxAttemptsRetryAllowed.maxAttempts] in Ec.
      destruct (a + 1 >=? n); [discriminate|]. inversion Ec; subst wc; clear Ec.
      assert (Hc : heap wd !! m
                   = Some (ObjMaxAttempts (MaxAttemptsRetryAllowed.mk (a + 1) n))).
      { eapply call_retryDelayMs_keeps_guards; [exact Ed|].
        cbn. apply list_lookup_insert_eq. exact Hlt. }
      rewrite (IH _ _ _ _ _ _ Hc H). do 3 f_equal. lia.
    + assert (Hc : heap wd !! m = Some (ObjMaxAttempts (MaxAttemptsRetryAllowed.mk a n))).
      { eapply call_retryDelayMs_keeps_guards; [exact Ed|].
        rewrite (call_checkRetryAllowed_elsewhere _ _ m _ _ _ _ _ _ Ec) by congruence.
        exact Hm. }
      exact (IH _ _ _ _ _ _ Hc H).
Qed.

(** X15.  An attempts guard registered at several positions is one object
    and counts once per position: after a round that no option vetoes, its
    [attempts] have grown by the number of times it occurs in [options]. *)
Theorem shared_guard_counts_every_position
    (this : RetryHelper) (m : loc) (a n numAttempts : Z) (err : Exn) (w w' : World) (d : Q) :
  heap w !! m = Some (ObjMaxAttempts (MaxAttemptsRetryAllowed.mk a n)) ->
  run_catch this numAttempts 0 err w = (Ok d, w') ->
  heap w' !! m
  = Some (ObjMaxAttempts
            (MaxAttemptsRetryAllowed.mk
               (a + Z.of_nat (count_occ Nat.eq_dec (options this) m)) n)).
Proof.
  intros Hm H. rewrite run_catch_unfold in H.
  eapply for_options_counts_positions; [|exact H]. exact Hm.
Qed.

Lemma shared_guard_counts_every_position_witness :
  let this := example_helper (always_rejects (VObject 7)) [0; 1; 0; 0]%nat in
  let err := Thrown (VObject 7) in
  let w := set_heap [ObjMaxAttempts (MaxAttemptsRetryAllowed.new 5);
                     ObjLinearBackoff (LinearBackoff.new 10)] (world_at 1000 0) in
  let w' := snd (run_catch this 1 0 err w) in
  run_catch this 1 0 err w = (Ok (0 + 10)%Q, w')
  /\ heap w' !! 0%nat = Some (ObjMaxAttempts (MaxAttemptsRetryAllowed.mk 3 5)).
Proof.
  intros this err w w'.
  assert (H : run_catch this 1 0 err w = (Ok (0 + 10)%Q, w')) by reflexivity.
  split; [exact H|].
  exact (shared_guard_counts_every_position this 0%nat 0 5 1 err w w' (0 + 10)%Q eq_refl H).
Defined.

(** ** The counters of the policies *)

(** X16.  Both backoff policies count their calls: after [n] calls of
    [getDelay] the field [numAttempts] holds [n], and the configured [delay],
    or [delayBase] and [exponential], are what the constructor received. *)
Theorem policies_count_their_calls
    (delay delayBase : Q) (increment : option Q) (exponential : Z) (n : nat) :
  let linear := after_calls n (LinearBackoffPolicy.new delay increment) in
  let exponent := after_calls n (ExponentialBackoffPolicy.new delayBase exponential) in
  LinearBackoffPolicy.numAttempts linear = Z.of_nat n
  /\ LinearBackoffPolicy.delay linear = delay
  /\ ExponentialBackoffPolicy.numAttempts exponent = Z.of_nat n
  /\ ExponentialBackoffPolicy.delayBase exponent = delayBase
  /\ ExponentialBackoffPolicy.exponential exponent = exponential.
Proof.
  intros linear exponent. subst linear exponent.
  rewrite linear_after_calls, exponential_after_calls. repeat split.
Qed.
